(** * CosmicPCAxisTagger: a shallow embedding of [produce]

    The module [larana/CosmicRemoval/CosmicPCAxisTagger_module.cc] tags
    particle-flow objects as cosmic-ray candidates from hit timing and from
    the proximity of the object's end points to the TPC faces.

    Conventions of the embedding.
    - [double] and [float] quantities are real numbers ([R]); conversions
      between the two and from [int] are the inclusions, so rounding and
      overflow are outside the model.
    - The values read from the event and from the configuration are numbers.
      The one NaN that the module makes itself is modelled: [sqrt] of a
      negative eigenvalue (line 184), which spreads to [maxArcLen], to the
      end points computed from the axis and to the six coordinates of the
      tag. These locals are of type [fp], a real number or NaN.
    - [int] is [Z], container indices ([size_t]) are [nat].
    - A C++ exception escaping [produce] is the [Raise] result of a small
      error monad; a [for] loop over a vector is a recursion over a list.
    - The data products (PCAxis, Hit, Cluster, SpacePoint, CosmicTag), the
      handles and [FindManyP] belong to other packages; only the members
      that [produce] reads are modelled. *)

From Stdlib Require Import Reals Lra List ZArith Bool Lia Permutation.
From Stdlib Require Import Sorted.
Import ListNotations.

Local Open Scope R_scope.

(** ** Comparisons on reals as booleans *)

Definition Rlt_b (a b : R) : bool := if Rlt_dec a b then true else false.
Definition Rgt_b (a b : R) : bool := Rlt_b b a.

(** ** Doubles that may be NaN

    Arithmetic with a NaN operand gives NaN and every comparison with NaN is
    false. [fp_sqrt] is [sqrt] of the C library on a number: NaN on a
    negative argument, the real square root otherwise. *)

Inductive fp : Type :=
| Num (r : R)
| NaN.

Coercion Num : R >-> fp.

Definition fp_map2 (op : R -> R -> R) (a b : fp) : fp :=
  match a, b with
  | Num x, Num y => Num (op x y)
  | _, _ => NaN
  end.

Definition fp_add : fp -> fp -> fp := fp_map2 Rplus.
Definition fp_sub : fp -> fp -> fp := fp_map2 Rminus.
Definition fp_mul : fp -> fp -> fp := fp_map2 Rmult.

Definition fp_lt_b (a b : fp) : bool :=
  match a, b with
  | Num x, Num y => Rlt_b x y
  | _, _ => false
  end.

Definition fp_gt_b (a b : fp) : bool := fp_lt_b b a.

Definition fp_sqrt (x : R) : fp := if Rlt_b x 0 then NaN else Num (sqrt x).

(** ** TVector3 *)

Module TVector3.

Record t : Type := mk { X : R; Y : R; Z : R }.

Definition add (a b : t) : t := mk (X a + X b) (Y a + Y b) (Z a + Z b).
Definition sub (a b : t) : t := mk (X a - X b) (Y a - Y b) (Z a - Z b).
Definition scale (k : R) (a : t) : t := mk (k * X a) (k * Y a) (k * Z a).
Definition Dot (a b : t) : R := X a * X b + Y a * Y b + Z a * Z b.

End TVector3.

Abbreviation TVector3 := TVector3.t.

(** A TVector3 whose coordinates may be NaN: the end points computed from
    [maxArcLen]. A vector of numbers is one of them. *)
Module FVector3.

Record t : Type := mk { X : fp; Y : fp; Z : fp }.

Definition of_reals (a : TVector3) : t :=
  mk (Num (TVector3.X a)) (Num (TVector3.Y a)) (Num (TVector3.Z a)).

Definition add (a b : t) : t :=
  mk (fp_add (X a) (X b)) (fp_add (Y a) (Y b)) (fp_add (Z a) (Z b)).
Definition sub (a b : t) : t :=
  mk (fp_sub (X a) (X b)) (fp_sub (Y a) (Y b)) (fp_sub (Z a) (Z b)).
Definition scale (k : fp) (a : t) : t :=
  mk (fp_mul k (X a)) (fp_mul k (Y a)) (fp_mul k (Z a)).

End FVector3.

Abbreviation FVector3 := FVector3.t.

Coercion FVector3.of_reals : TVector3.t >-> FVector3.t.

(** ** Data products read by the module *)

Module recob.

(** [getEigenValues] and [getAvePosition] return a [const double*] that is
    indexed, [getEigenVectors] a vector of rows; an array is the function
    from its indices. *)
Record PCAxis : Type := mkPCAxis {
  getID : nat;
  getEigenValues : nat -> R;
  getEigenVectors : nat -> nat -> R;
  getAvePosition : nat -> R
}.

Record Hit : Type := mkHit {
  PeakTimeMinusRMS : R;
  PeakTimePlusRMS : R
}.

Record Cluster : Type := mkCluster { ID : Z }.

Record SpacePoint : Type := mkSpacePoint { XYZ : nat -> R }.

(** A PFParticle is only ever used through its index in the collection. *)
Record PFParticle : Type := mkPFParticle { Self : nat }.

End recob.

Module anab.

(** The tag kinds the module can assign. *)
Inductive CosmicTagID_t : Type :=
| kNotTagged
| kOutsideDrift_Partial
| kGeometry_XX
| kGeometry_YY
| kGeometry_XY
| kGeometry_XZ
| kGeometry_YZ
| kGeometry_ZZ
| kGeometry_X
| kGeometry_Y
| kGeometry_Z.

Record CosmicTag : Type := mkCosmicTag {
  endPt1 : list fp;
  endPt2 : list fp;
  fCosmicScore : R;
  fCosmicType : CosmicTagID_t
}.

End anab.

Export recob anab.

(** ** Exceptions, handles and association lookups *)

Inductive Exn : Type :=
| ProductNotFound   (* the stored failure of a lookup, rethrown by [at] *)
| OutOfRange.       (* std::out_of_range of [vector::at] *)

Inductive Result (A : Type) : Type :=
| Ok (a : A)
| Raise (e : Exn).

Arguments Ok {A} a.
Arguments Raise {A} e.

Definition bind {A B : Type} (m : Result A) (k : A -> Result B) : Result B :=
  match m with
  | Ok a => k a
  | Raise e => Raise e
  end.

Notation "x <- m ;; k" := (bind m (fun x => k))
  (at level 61, m at next level, right associativity).

Module art.

(** [getByLabel] fills a handle; an absent product leaves it invalid. *)
Definition Handle (A : Type) : Type := option A.

Definition isValid {A : Type} (h : Handle A) : bool :=
  match h with Some _ => true | None => false end.

(** [FindManyP<B>]: one vector of [B] per element of the queried
    collection when the association product was found.  Construction does
    not throw; [at] rethrows the lookup failure of an absent product and is
    range checked. *)
Definition FindManyP (B : Type) : Type := option (list (list B)).

Definition at_ {B : Type} (f : FindManyP B) (i : nat) : Result (list B) :=
  match f with
  | None => Raise ProductNotFound
  | Some v =>
      match nth_error v i with
      | Some l => Ok l
      | None => Raise OutOfRange
      end
  end.

(** What the module reads from the event. *)
Record Event : Type := mkEvent {
  pfParticleHandle : Handle (list PFParticle);
  clusterHandle : Handle (list Cluster);
  pcaxisHandle : Handle (list PCAxis);
  pfPartToPCAxisAssns : FindManyP PCAxis;
  spacePointAssnVec : FindManyP SpacePoint;
  clusterAssns : FindManyP Cluster;
  clusterHitAssns : FindManyP Hit
}.

End art.

(** ** The module's configuration (its data members) *)

Record CosmicPCAxisTagger : Type := mkTagger {
  fDetectorWidthTicks : Z;
  fTPCXBoundary : R;
  fTPCYBoundary : R;
  fTPCZBoundary : R;
  fDetHalfHeight : R;
  fDetWidth : R;
  fDetLength : R
}.

(** The three products put into the event. An association entry pairs the
    key of its left side with the index of the tag in the tag vector. *)
Record Outputs : Type := mkOutputs {
  cosmicTagPFParticleVector : list CosmicTag;
  assnOutCosmicTagPFParticle : list (nat * nat);
  assnOutCosmicTagPCAxis : list (PCAxis * nat)
}.

Definition no_output : Outputs := mkOutputs [] [] [].

(** [isCosmic] and [tag_id], the two locals the tagging updates. *)
Record TagState : Type := mkTagState {
  isCosmic : Z;
  tag_id : CosmicTagID_t
}.

(** ** The body of [produce] for one PFParticle *)

Section Tagger.

Variable self : CosmicPCAxisTagger.

(** Lines 167-168: with more than one axis, the vector is reversed when the
    first id is larger than the last. *)
Definition order_axes (pcAxisVec : list PCAxis) : list PCAxis :=
  match pcAxisVec with
  | [] => pcAxisVec
  | front :: _ =>
      if (1 <? length pcAxisVec)%nat
         && (getID (last pcAxisVec front) <? getID front)%nat
      then rev pcAxisVec
      else pcAxisVec
  end.

(** Lines 227-228: the test applied to each hit. *)
Definition out_of_time (hit : Hit) : bool :=
  Rlt_b (PeakTimeMinusRMS hit) (IZR (fDetectorWidthTicks self))
  || Rgt_b (PeakTimePlusRMS hit) (2 * IZR (fDetectorWidthTicks self)).

Definition flagged : TagState := mkTagState 1 kOutsideDrift_Partial.

(** Lines 221-233: the loop over the hits of one cluster, left by [break]. *)
Fixpoint scan_hits (hitVec : list Hit) (st : TagState) : TagState :=
  match hitVec with
  | [] => st
  | hit :: rest => if out_of_time hit then flagged else scan_hits rest st
  end.

(** [clusterHitAssns.at(cluster->ID())]: the [int] id becomes a [size_t]
    index, so a negative id is out of range. *)
Definition hits_of (clusterHitAssns : art.FindManyP Hit) (cluster : Cluster)
  : Result (list Hit) :=
  match clusterHitAssns with
  | None => Raise ProductNotFound
  | Some _ =>
      if (ID cluster <? 0)%Z then Raise OutOfRange
      else art.at_ clusterHitAssns (Z.to_nat (ID cluster))
  end.

(** Lines 211-234: the loop over the clusters. *)
Fixpoint scan_clusters (clusterHitAssns : art.FindManyP Hit)
  (clusterVec : list Cluster) (st : TagState) : Result TagState :=
  match clusterVec with
  | [] => Ok st
  | cluster :: rest =>
      hitVec <- hits_of clusterHitAssns cluster ;;
      scan_clusters clusterHitAssns rest (scan_hits hitVec st)
  end.

(** The same loop over hit vectors already fetched. *)
Definition timing_filter (hitVecs : list (list Hit)) (st : TagState) : TagState :=
  fold_left (fun s hitVec => scan_hits hitVec s) hitVecs st.

(** Lines 255-272: the search for the extremal space points. *)
Record Extent : Type := mkExtent {
  arcLengthToFirstHit : R;
  arcLengthToLastHit : R;
  pcAxisStart : FVector3;
  pcAxisEnd : FVector3
}.

Definition spacePointPos (spacePoint : SpacePoint) : TVector3 :=
  TVector3.mk (XYZ spacePoint 0%nat) (XYZ spacePoint 1%nat) (XYZ spacePoint 2%nat).

Definition arcLen (vertexPosition vertexDirection : TVector3)
  (spacePoint : SpacePoint) : R :=
  let deltaPos := TVector3.sub (spacePointPos spacePoint) vertexPosition in
  TVector3.Dot deltaPos vertexDirection.

Definition extent_step (vertexPosition vertexDirection : TVector3)
  (e : Extent) (spacePoint : SpacePoint) : Extent :=
  let spacePointPos := spacePointPos spacePoint in
  let arcLenToHit := arcLen vertexPosition vertexDirection spacePoint in
  let e1 :=
    if Rlt_b arcLenToHit (arcLengthToFirstHit e)
    then mkExtent arcLenToHit (arcLengthToLastHit e) spacePointPos (pcAxisEnd e)
    else e in
  if Rgt_b arcLenToHit (arcLengthToLastHit e1)
  then mkExtent (arcLengthToFirstHit e1) arcLenToHit (pcAxisStart e1) spacePointPos
  else e1.

Definition find_extent (vertexPosition vertexDirection : TVector3)
  (spacePointVec : list SpacePoint) (start end_ : FVector3) : Extent :=
  fold_left (extent_step vertexPosition vertexDirection) spacePointVec
    (mkExtent 9999 (-9999) start end_).

(** Lines 296-315: proximity of one coordinate to the faces. *)
Definition nearX (x : fp) : bool :=
  fp_lt_b (fp_sub (fDetWidth self) x) (fTPCXBoundary self)
  || fp_lt_b x (fTPCXBoundary self).

Definition nearY (y : fp) : bool :=
  fp_lt_b (fp_sub (fDetHalfHeight self) y) (fTPCYBoundary self)
  || fp_lt_b (fp_add (fDetHalfHeight self) y) (fTPCYBoundary self).

Definition nearZ (z : fp) : bool :=
  fp_lt_b (fp_sub (fDetLength self) z) (fTPCZBoundary self)
  || fp_lt_b z (fTPCZBoundary self).

(** Lines 287-354: the decision on the two end points. *)
Definition boundary_tag (p1 p2 : FVector3) (st : TagState) : TagState :=
  let nBdX0 := nearX (FVector3.X p1) in
  let nBdX1 := nearX (FVector3.X p2) in
  let nBdY0 := nearY (FVector3.Y p1) in
  let nBdY1 := nearY (FVector3.Y p2) in
  let nBdZ0 := nearZ (FVector3.Z p1) in
  let nBdZ1 := nearZ (FVector3.Z p2) in
  let exitEnd1 := nBdX0 || nBdY0 in
  let exitEnd2 := nBdX1 || nBdY1 in
  let exitEndZ1 := exitEnd1 && nBdZ1 in
  let exitEndZ2 := exitEnd1 && nBdZ0 in
  if (exitEnd1 && exitEnd2) || exitEndZ1 || exitEndZ2 then
    mkTagState 2
      (if nBdX0 && nBdX1 then kGeometry_XX
       else if nBdY0 && nBdY1 then kGeometry_YY
       else if (nBdX0 || nBdX1) && (nBdY0 || nBdY1) then kGeometry_XY
       else if (nBdX0 || nBdX1) && (nBdZ0 || nBdZ1) then kGeometry_XZ
       else kGeometry_YZ)
  else if nBdZ0 && nBdZ1 then
    mkTagState 3 kGeometry_ZZ
  else if xorb (nBdX0 || nBdY0 || nBdZ0) (nBdX1 || nBdY1 || nBdZ1) then
    mkTagState 4
      (if nBdX0 || nBdX1 then kGeometry_X
       else if nBdY0 || nBdY1 then kGeometry_Y
       else if nBdZ0 || nBdZ1 then kGeometry_Z
       else tag_id st)
  else st.

(** What is known of one particle when its tag is built. *)
Record Tagged : Type := mkTagged {
  trackEndPt1 : FVector3;
  trackEndPt2 : FVector3;
  state : TagState
}.

(** Lines 184-203 and 242-356, given the state left by the timing loop. *)
Definition eigenVal0 (pcAxis : PCAxis) : fp := fp_sqrt (getEigenValues pcAxis 0%nat).

Definition maxArcLen (pcAxis : PCAxis) : fp := fp_mul 3 (eigenVal0 pcAxis).

Definition vertexPosition (pcAxis : PCAxis) : TVector3 :=
  TVector3.mk (getAvePosition pcAxis 0%nat) (getAvePosition pcAxis 1%nat)
    (getAvePosition pcAxis 2%nat).

Definition vertexDirection (pcAxis : PCAxis) : TVector3 :=
  TVector3.mk (getEigenVectors pcAxis 0%nat 0%nat)
    (getEigenVectors pcAxis 0%nat 1%nat) (getEigenVectors pcAxis 0%nat 2%nat).

(** Lines 194-195: the end points taken from the axis alone. *)
Definition axisStart (pcAxis : PCAxis) : FVector3 :=
  FVector3.sub (vertexPosition pcAxis)
    (FVector3.scale (maxArcLen pcAxis) (vertexDirection pcAxis)).

Definition axisEnd (pcAxis : PCAxis) : FVector3 :=
  FVector3.add (vertexPosition pcAxis)
    (FVector3.scale (maxArcLen pcAxis) (vertexDirection pcAxis)).

(** Line 245. *)
Definition transRMS (pcAxis : PCAxis) : R :=
  sqrt (getEigenValues pcAxis 1%nat ^ 2 + getEigenValues pcAxis 1%nat ^ 2).

Definition classify (pcAxis : PCAxis) (st : TagState)
  (spacePointVec : list SpacePoint) : Tagged :=
  if (isCosmic st =? 0)%Z && negb (length spacePointVec =? 0)%nat then
    if fp_gt_b (eigenVal0 pcAxis) 0 && Rgt_b (transRMS pcAxis) 0 then
      let e := find_extent (vertexPosition pcAxis) (vertexDirection pcAxis)
                 spacePointVec (axisStart pcAxis) (axisEnd pcAxis) in
      mkTagged (pcAxisStart e) (pcAxisEnd e)
        (boundary_tag (pcAxisStart e) (pcAxisEnd e) st)
    else mkTagged (axisStart pcAxis) (axisEnd pcAxis) st
  else mkTagged (axisStart pcAxis) (axisEnd pcAxis) st.

(** Lines 367-373. *)
Definition cosmicScore (isCosmic : Z) : R :=
  let score := if (0 <? isCosmic)%Z then 1 else 0 in
  if (isCosmic =? 3)%Z then 0.4
  else if (isCosmic =? 4)%Z then 0.5
  else score.

(** Lines 358-376: the tag record. *)
Definition make_tag (t : Tagged) : CosmicTag :=
  let p1 := trackEndPt1 t in
  let p2 := trackEndPt2 t in
  mkCosmicTag
    [FVector3.X p1; FVector3.Y p1; FVector3.Z p1]
    [FVector3.X p2; FVector3.Y p2; FVector3.Z p2]
    (cosmicScore (isCosmic (state t)))
    (tag_id (state t)).

Definition initial : TagState := mkTagState 0 kNotTagged.

(** The tag of a particle from its canonical axis, the hits of its clusters
    and its space points. *)
Definition tag_particle (pcAxis : PCAxis) (hitVecs : list (list Hit))
  (spacePointVec : list SpacePoint) : Tagged :=
  classify pcAxis (timing_filter hitVecs initial) spacePointVec.

(** Lines 376-384: the tag is appended, and the particle and each of its
    axes are associated with it, the last element of the tag vector. *)
Definition emplace (out : Outputs) (pfPartIdx : nat) (pcAxisVec : list PCAxis)
  (tag : CosmicTag) : Outputs :=
  let tags := cosmicTagPFParticleVector out ++ [tag] in
  let last_tag := (length tags - 1)%nat in
  mkOutputs tags
    (assnOutCosmicTagPFParticle out ++ [(pfPartIdx, last_tag)])
    (assnOutCosmicTagPCAxis out ++ map (fun axis => (axis, last_tag)) pcAxisVec).

(** Lines 153-385: one turn of the loop over the PFParticles. *)
Definition tag_one (evt : art.Event) (pfPartIdx : nat) (out : Outputs)
  : Result Outputs :=
  pcAxisVec <- art.at_ (art.pfPartToPCAxisAssns evt) pfPartIdx ;;
  match pcAxisVec with
  | [] => Ok out
  | first :: _ =>
      let pcAxisVec := order_axes pcAxisVec in
      let pcAxis := hd first pcAxisVec in
      clusterVec <- art.at_ (art.clusterAssns evt) pfPartIdx ;;
      st <- scan_clusters (art.clusterHitAssns evt) clusterVec initial ;;
      spacePointVec <- art.at_ (art.spacePointAssnVec evt) pfPartIdx ;;
      Ok (emplace out pfPartIdx pcAxisVec
            (make_tag (classify pcAxis st spacePointVec)))
  end.

Fixpoint tag_all (evt : art.Event) (indices : list nat) (out : Outputs)
  : Result Outputs :=
  match indices with
  | [] => Ok out
  | pfPartIdx :: rest =>
      out' <- tag_one evt pfPartIdx out ;;
      tag_all evt rest out'
  end.

(** Lines 101-390. The products are put once, at a [return]; an exception
    leaves nothing behind. *)
Definition produce (evt : art.Event) : Result Outputs :=
  match art.pfParticleHandle evt with
  | None => Ok no_output
  | Some pfParticles =>
      if negb (art.isValid (art.pcaxisHandle evt))
         || negb (art.isValid (art.clusterHandle evt))
      then Ok no_output
      else tag_all evt (seq 0 (length pfParticles)) no_output
  end.

End Tagger.

(** ** Statements of the specification *)

(** The score as a function of the tag kind (specification, section 8). *)
Definition score_of_kind (k : CosmicTagID_t) : R :=
  match k with
  | kNotTagged => 0
  | kGeometry_ZZ => 0.4
  | kGeometry_X | kGeometry_Y | kGeometry_Z => 0.5
  | kOutsideDrift_Partial
  | kGeometry_XX | kGeometry_YY | kGeometry_XY | kGeometry_XZ | kGeometry_YZ => 1
  end.

Section Specification.

Variable self : CosmicPCAxisTagger.

(** Section 4.4: the per-point flags and [exit(p) = nearX(p) OR nearY(p)]. *)
Definition nearX_at (p : FVector3) : bool := nearX self (FVector3.X p).
Definition nearY_at (p : FVector3) : bool := nearY self (FVector3.Y p).
Definition nearZ_at (p : FVector3) : bool := nearZ self (FVector3.Z p).
Definition exit_at (p : FVector3) : bool := nearX_at p || nearY_at p.
Definition any_at (p : FVector3) : bool := nearX_at p || nearY_at p || nearZ_at p.

(** Priority rule 1 and the kind it assigns, by first match. *)
Definition rule1 (start end_ : FVector3) : bool :=
  (exit_at start && exit_at end_)
  || (exit_at start && nearZ_at end_)
  || (exit_at start && nearZ_at start).

Definition rule1_kind (start end_ : FVector3) : CosmicTagID_t :=
  if nearX_at start && nearX_at end_ then kGeometry_XX
  else if nearY_at start && nearY_at end_ then kGeometry_YY
  else if (nearX_at start || nearX_at end_) && (nearY_at start || nearY_at end_)
       then kGeometry_XY
  else if (nearX_at start || nearX_at end_) && (nearZ_at start || nearZ_at end_)
       then kGeometry_XZ
  else kGeometry_YZ.

(** Priority rules 1 to 3 as a table: the level and kind of the first rule
    that matches, if any. *)
Definition boundary_rules (start end_ : FVector3) : option TagState :=
  if rule1 start end_ then Some (mkTagState 2 (rule1_kind start end_))
  else if nearZ_at start && nearZ_at end_ then Some (mkTagState 3 kGeometry_ZZ)
  else if xorb (any_at start) (any_at end_) then
    Some (mkTagState 4
            (if nearX_at start || nearX_at end_ then kGeometry_X
             else if nearY_at start || nearY_at end_ then kGeometry_Y
             else kGeometry_Z))
  else None.

(** The reading of the timing rule in which a flagged object still goes
    through rules 1 to 3 on its end points, the timing tag being the
    fallback of rule 4. *)
Definition rules_before_timing (t : Tagged) : TagState :=
  match boundary_rules (trackEndPt1 t) (trackEndPt2 t) with
  | Some st => st
  | None => flagged
  end.

End Specification.

(** Section 4.3: [p] is the earliest element of [l] whose key is minimal. *)
Definition first_min {A : Type} (key : A -> R) (l : list A) (p : A) : Prop :=
  exists l1 l2, l = l1 ++ p :: l2
    /\ (forall q, In q l1 -> key p < key q)
    /\ (forall q, In q l2 -> key p <= key q).

Definition first_max {A : Type} (key : A -> R) (l : list A) (p : A) : Prop :=
  exists l1 l2, l = l1 ++ p :: l2
    /\ (forall q, In q l1 -> key q < key p)
    /\ (forall q, In q l2 -> key q <= key p).

(** One half of the extremal search on its own: the best key so far and the
    position that goes with it, replaced when [better] holds of a new key. *)
Definition scan {A : Type} (key : A -> R) (pos : A -> FVector3)
  (better : R -> R -> bool) (best : R) (at_best : FVector3) (l : list A)
  : R * FVector3 :=
  fold_left
    (fun acc p => if better (key p) (fst acc) then (key p, pos p) else acc)
    l (best, at_best).

(** The state left by the timing loop is one of two. *)
Definition timing_state (st : TagState) : Prop := st = initial \/ st = flagged.

(** The axes associated to a particle, none when the lookup fails. *)
Definition axes_of (evt : art.Event) (pfPartIdx : nat) : list PCAxis :=
  match art.at_ (art.pfPartToPCAxisAssns evt) pfPartIdx with
  | Ok l => l
  | Raise _ => []
  end.

Definition has_axis (evt : art.Event) (pfPartIdx : nat) : bool :=
  negb (length (axes_of evt pfPartIdx) =? 0)%nat.

(** [tag] is the tag of particle [pfPartIdx]: the particle has an axis,
    its lookups succeed and the tag is built from what they return. *)
Definition tag_of (self : CosmicPCAxisTagger) (evt : art.Event) (pfPartIdx : nat)
  (tag : CosmicTag) : Prop :=
  exists first rest clusterVec hitVecs spacePointVec,
    art.at_ (art.pfPartToPCAxisAssns evt) pfPartIdx = Ok (first :: rest)
    /\ art.at_ (art.clusterAssns evt) pfPartIdx = Ok clusterVec
    /\ Forall2 (fun c hitVec => hits_of (art.clusterHitAssns evt) c = Ok hitVec)
         clusterVec hitVecs
    /\ art.at_ (art.spacePointAssnVec evt) pfPartIdx = Ok spacePointVec
    /\ tag = make_tag (tag_particle self (hd first (order_axes (first :: rest)))
                         hitVecs spacePointVec).

(** The entries of the axis table that go with one entry of the particle
    table. *)
Definition axis_entries (evt : art.Event) (entry : nat * nat) : list (PCAxis * nat) :=
  map (fun axis => (axis, snd entry)) (order_axes (axes_of evt (fst entry))).

(** The three products once the particles [done] have been gone through. *)
Definition emitted (self : CosmicPCAxisTagger) (evt : art.Event) (done : list nat)
  (out : Outputs) : Prop :=
  map fst (assnOutCosmicTagPFParticle out) = filter (has_axis evt) done
  /\ map snd (assnOutCosmicTagPFParticle out)
     = seq 0 (length (cosmicTagPFParticleVector out))
  /\ Forall2 (fun entry tag => tag_of self evt (fst entry) tag)
       (assnOutCosmicTagPFParticle out) (cosmicTagPFParticleVector out)
  /\ assnOutCosmicTagPCAxis out
     = flat_map (axis_entries evt) (assnOutCosmicTagPFParticle out).

(** Every lookup that [produce] makes for the first [n] particles succeeds. *)
Definition lookups_succeed (evt : art.Event) (n : nat) : Prop :=
  forall i, (i < n)%nat ->
    exists axes, art.at_ (art.pfPartToPCAxisAssns evt) i = Ok axes
      /\ (axes <> [] ->
          exists clusterVec spacePointVec,
            art.at_ (art.clusterAssns evt) i = Ok clusterVec
            /\ art.at_ (art.spacePointAssnVec evt) i = Ok spacePointVec
            /\ Forall (fun c => exists hitVec,
                         hits_of (art.clusterHitAssns evt) c = Ok hitVec)
                 clusterVec).

(** ** Sample data: a detector, axes along x, hits and space points *)

Definition array3 (a b c : R) : nat -> R :=
  fun i => match i with 0%nat => a | 1%nat => b | _ => c end.

Definition rows3 (r0 r1 r2 : nat -> R) : nat -> nat -> R :=
  fun i => match i with 0%nat => r0 | 1%nat => r1 | _ => r2 end.

Definition detector : CosmicPCAxisTagger := mkTagger 3200 5 5 5 116 256 1037.

(** An axis through [(x, 0, 500)] along x; the dominant eigenvalue is
    [s * s], so the axis reaches [3 * s] to either side of [x]. *)
Definition x_axis (id : nat) (x s : R) : PCAxis :=
  mkPCAxis id (array3 (s * s) 1 1)
    (rows3 (array3 1 0 0) (array3 0 1 0) (array3 0 0 1))
    (array3 x 0 500).

Definition point (x y z : R) : SpacePoint := mkSpacePoint (array3 x y z).

Definition in_time_hit : Hit := mkHit 4000 4010.
Definition early_hit : Hit := mkHit 100 110.

(** An axis in the middle of the detector reaching both x faces, and the
    two space points at its ends. *)
Definition crossing_axis : PCAxis := x_axis 1 128 42.
Definition crossing_points : list SpacePoint := [point 2 0 500; point 254 0 500].

(** An axis well inside the detector, with points around it. *)
Definition inner_axis : PCAxis := x_axis 1 128 10.
Definition inner_points : list SpacePoint :=
  [point 125 0 500; point 118 0 500; point 135 0 500; point 128 0 500].

(** A space point whose arc length along [x_axis 1 0 1] is 10000. *)
Definition far_point : SpacePoint := point 10000 0 500.

(** The axis of [inner_axis] with a dominant eigenvalue below zero. *)
Definition negative_axis : PCAxis :=
  mkPCAxis 1 (array3 (-1) 1 1)
    (rows3 (array3 1 0 0) (array3 0 1 0) (array3 0 0 1))
    (array3 128 0 500).

(** An event of three particles: one crossing the detector in x, one
    without axis, one with two axes listed by descending id and an early
    hit. *)
Definition sample_event : art.Event :=
  art.mkEvent
    (Some [mkPFParticle 0; mkPFParticle 1; mkPFParticle 2])
    (Some [mkCluster 0; mkCluster 1])
    (Some [crossing_axis; x_axis 5 128 10; x_axis 3 128 10])
    (Some [[crossing_axis]; []; [x_axis 5 128 10; x_axis 3 128 10]])
    (Some [crossing_points; []; inner_points])
    (Some [[mkCluster 0]; []; [mkCluster 1]])
    (Some [[in_time_hit]; [in_time_hit; early_hit]]).

Definition sample_output : Outputs :=
  mkOutputs
    [mkCosmicTag [Num 2; Num 0; Num 500] [Num 254; Num 0; Num 500] 1 kGeometry_XX;
     mkCosmicTag
       [Num (128 - 3 * 10 * 1); Num (0 - 3 * 10 * 0); Num (500 - 3 * 10 * 0)]
       [Num (128 + 3 * 10 * 1); Num (0 + 3 * 10 * 0); Num (500 + 3 * 10 * 0)]
       1 kOutsideDrift_Partial]
    [(0%nat, 0%nat); (2%nat, 1%nat)]
    [(crossing_axis, 0%nat); (x_axis 3 128 10, 1%nat); (x_axis 5 128 10, 1%nat)].

(** The same event without the association of space points. *)
Definition event_without_space_points : art.Event :=
  art.mkEvent
    (art.pfParticleHandle sample_event) (art.clusterHandle sample_event)
    (art.pcaxisHandle sample_event) (art.pfPartToPCAxisAssns sample_event)
    None
    (art.clusterAssns sample_event) (art.clusterHitAssns sample_event).

(** The same event with the association of space points there and no space
    point in it. *)
Definition event_with_no_space_point : art.Event :=
  art.mkEvent
    (art.pfParticleHandle sample_event) (art.clusterHandle sample_event)
    (art.pcaxisHandle sample_event) (art.pfPartToPCAxisAssns sample_event)
    (Some [[]; []; []])
    (art.clusterAssns sample_event) (art.clusterHitAssns sample_event).

(** The same event without the association of axes. *)
Definition event_without_axis_assns : art.Event :=
  art.mkEvent
    (art.pfParticleHandle sample_event) (art.clusterHandle sample_event)
    (art.pcaxisHandle sample_event) None
    (art.spacePointAssnVec sample_event)
    (art.clusterAssns sample_event) (art.clusterHitAssns sample_event).

(** The same event without the collection of axes. *)
Definition event_without_axes : art.Event :=
  art.mkEvent
    (art.pfParticleHandle sample_event) (art.clusterHandle sample_event)
    None (art.pfPartToPCAxisAssns sample_event)
    (art.spacePointAssnVec sample_event)
    (art.clusterAssns sample_event) (art.clusterHitAssns sample_event).

(** ** Further statements *)

(** The closed box left by the margins: no face is near a point of it. *)
Definition fiducial (self : CosmicPCAxisTagger) (p : TVector3) : Prop :=
  fTPCXBoundary self <= TVector3.X p <= fDetWidth self - fTPCXBoundary self
  /\ fTPCYBoundary self - fDetHalfHeight self <= TVector3.Y p
     <= fDetHalfHeight self - fTPCYBoundary self
  /\ fTPCZBoundary self <= TVector3.Z p <= fDetLength self - fTPCZBoundary self.

(** A hit inside the drift window, bounds included. *)
Definition in_window (self : CosmicPCAxisTagger) (hit : Hit) : Prop :=
  IZR (fDetectorWidthTicks self) <= PeakTimeMinusRMS hit
  /\ PeakTimePlusRMS hit <= 2 * IZR (fDetectorWidthTicks self).

(** An event of two particles without axis, and no association but the
    one of axes. *)
Definition event_without_any_axis : art.Event :=
  art.mkEvent
    (Some [mkPFParticle 0; mkPFParticle 1]) (Some []) (Some [])
    (Some [[]; []]) None None None.

(** ** AlgoThreshold: pulses above a threshold in a waveform

    [OpticalDetector/AlgoThreshold.cxx]. The pulse record and the base class
    PMTPulseRecoBase are declared elsewhere: the record has the five fields
    that this file assigns, and [pulse_param::reset_param] and
    [PMTPulseRecoBase::Reset] are parameters of the model. Samples
    ([uint16_t]) are integers, times and amplitudes ([double]) reals. *)

Definition Rge_b (a b : R) : bool := negb (Rlt_b a b).

Module pmtana.

Record pulse_param : Type := mk_pulse_param {
  peak : R;
  area : R;
  t_start : R;
  t_max : R;
  t_end : R
}.

(** The data members that [RecoPulse] reads and writes. *)
Record AlgoThreshold : Type := mkAlgoThreshold {
  _adc_thres : R;
  _nsigma : R;
  _ped_mean : R;
  _ped_rms : R;
  _pulse : pulse_param;
  _pulse_v : list pulse_param
}.

(** The locals [fire] and [counter] with the two members that the loop
    updates. *)
Record Loop : Type := mkLoop {
  fire : bool;
  counter : R;
  pulse : pulse_param;
  pulse_v : list pulse_param
}.

Section RecoPulse.

Variable reset_param : pulse_param -> pulse_param.
Variable Reset : AlgoThreshold -> AlgoThreshold.

(** Lines 46-48. *)
Definition threshold (self : AlgoThreshold) : R :=
  (if Rgt_b (_adc_thres self) (_nsigma self * _ped_rms self)
   then _adc_thres self
   else _nsigma self * _ped_rms self)
  + _ped_mean self.

(** Lines 56-64: a new pulse starts. *)
Definition open_pulse (threshold : R) (value : Z) (s : Loop) : Loop :=
  if negb (fire s) && Rge_b (IZR value) threshold
  then mkLoop true (counter s)
         (mk_pulse_param (peak (pulse s)) (area (pulse s)) (counter s)
            (t_max (pulse s)) (t_end (pulse s)))
         (pulse_v s)
  else s.

(** Lines 66-78 and 106-118: the pulse ends and is stored. *)
Definition store_pulse (s : Loop) : Loop :=
  let ended :=
    mk_pulse_param (peak (pulse s)) (area (pulse s)) (t_start (pulse s))
      (t_max (pulse s)) (counter s - 1) in
  mkLoop false (counter s) (reset_param ended) (pulse_v s ++ [ended]).

Definition close_pulse (threshold : R) (value : Z) (s : Loop) : Loop :=
  if fire s && Rlt_b (IZR value) threshold then store_pulse s else s.

(** Lines 83-100: the sample is added to the open pulse. *)
Definition integrate (ped_mean : R) (value : Z) (s : Loop) : Loop :=
  if fire s then
    let p := pulse s in
    let p1 :=
      mk_pulse_param (peak p) (area p + (IZR value - ped_mean)) (t_start p)
        (t_max p) (t_end p) in
    let p2 :=
      if Rlt_b (peak p1) (IZR value - ped_mean)
      then mk_pulse_param (IZR value - ped_mean) (area p1) (t_start p1)
             (counter s) (t_end p1)
      else p1 in
    mkLoop (fire s) (counter s) p2 (pulse_v s)
  else s.

(** Lines 52-103: the body of the loop over the samples. *)
Definition sample_step (threshold ped_mean : R) (s : Loop) (value : Z) : Loop :=
  let s := open_pulse threshold value s in
  let s := close_pulse threshold value s in
  let s := integrate ped_mean value s in
  mkLoop (fire s) (counter s + 1) (pulse s) (pulse_v s).

(** Lines 105-119: a pulse still open at the end of the waveform. *)
Definition finish (s : Loop) : Loop := if fire s then store_pulse s else s.

(** Lines 40-123. The threshold is computed before [Reset]; the result is
    the value returned and the object left. *)
Definition RecoPulse (self : AlgoThreshold) (wf : list Z) : bool * AlgoThreshold :=
  let threshold := threshold self in
  let self := Reset self in
  let s :=
    finish (fold_left (sample_step threshold (_ped_mean self)) wf
              (mkLoop false 0 (_pulse self) (_pulse_v self))) in
  (true,
   mkAlgoThreshold (_adc_thres self) (_nsigma self) (_ped_mean self)
     (_ped_rms self) (pulse s) (pulse_v s)).

End RecoPulse.

(** The runs of [true] in a list of booleans whose first element has index
    [i], as pairs of first and last index; [open] is the start of a run
    that has begun before [i]. *)
Fixpoint runs_from (i : nat) (open : option nat) (bs : list bool)
  : list (nat * nat) :=
  match bs with
  | [] => match open with Some a => [(a, (i - 1)%nat)] | None => [] end
  | b :: rest =>
      match open, b with
      | None, true => runs_from (S i) (Some i) rest
      | None, false => runs_from (S i) None rest
      | Some a, true => runs_from (S i) (Some a) rest
      | Some a, false => (a, (i - 1)%nat) :: runs_from (S i) None rest
      end
  end.

(** The samples at or above a threshold, and the pulses of [after] beyond the
    first [length before]. *)
Definition above (threshold : R) (wf : list Z) : list bool :=
  map (fun value => Rge_b (IZR value) threshold) wf.

Definition new_pulses (before after : list pulse_param) : list pulse_param :=
  skipn (length before) after.

Definition span (p : pulse_param) : R * R := (t_start p, t_end p).

Definition INR_pair (ab : nat * nat) : R * R := (INR (fst ab), INR (snd ab)).

(** The pulses that one call of [RecoPulse] adds to those left by [Reset]. *)
Definition appended (reset_param : pulse_param -> pulse_param)
  (Reset : AlgoThreshold -> AlgoThreshold) (self : AlgoThreshold) (wf : list Z)
  : list pulse_param :=
  new_pulses (_pulse_v (Reset self))
    (_pulse_v (snd (RecoPulse reset_param Reset self wf))).

(** The sum of the samples [lo] to [hi] of a waveform above the pedestal. *)
Definition sum_range (wf : list Z) (ped_mean : R) (lo hi : nat) : R :=
  fold_right Rplus 0
    (map (fun i => IZR (nth i wf 0%Z) - ped_mean) (seq lo (S hi - lo))).

(** The areas of a list of pulses stored one after the other: each pulse
    adds the samples of its own span to the area of the record it started
    from, [carry] for the first pulse and the reset of the pulse stored
    before it for the others. *)
Inductive integrated (reset_param : pulse_param -> pulse_param) (wf : list Z)
  (ped_mean : R) : R -> list pulse_param -> Prop :=
| integrated_nil (carry : R) : integrated reset_param wf ped_mean carry []
| integrated_cons (carry : R) (p : pulse_param) (a b : nat)
    (new : list pulse_param) :
    t_start p = INR a -> t_end p = INR b ->
    area p = carry + sum_range wf ped_mean a b ->
    integrated reset_param wf ped_mean (area (reset_param p)) new ->
    integrated reset_param wf ped_mean carry (p :: new).

(** The same when the first pulse, started at [a], has been integrated up
    to sample [lo], not included. *)
Definition integrated_from (reset_param : pulse_param -> pulse_param) (wf : list Z)
  (ped_mean : R) (a lo : nat) (carry : R) (new : list pulse_param) : Prop :=
  match new with
  | [] => True
  | p :: rest =>
      exists b, t_start p = INR a /\ t_end p = INR b /\ (lo <= S b)%nat
        /\ area p = carry + sum_range wf ped_mean lo b
        /\ integrated reset_param wf ped_mean (area (reset_param p)) rest
  end.

(** The peak and its time for a pulse [cur] that started from the record
    [q] at sample [a] and has seen the samples before [hi]: the peak is no
    less than the one of [q] and than any sample seen, above the pedestal;
    it is still the one of [q], with its time, or it is the first of the
    samples seen that reaches it, [t_max] being the index of that sample. *)
Definition peak_between (wf : list Z) (ped_mean : R) (q cur : pulse_param)
  (a hi : nat) : Prop :=
  peak q <= peak cur
  /\ (forall i, (a <= i < hi)%nat -> IZR (nth i wf 0%Z) - ped_mean <= peak cur)
  /\ ((peak cur = peak q /\ t_max cur = t_max q)
      \/ exists i, (a <= i < hi)%nat
           /\ peak cur = IZR (nth i wf 0%Z) - ped_mean
           /\ t_max cur = INR i
           /\ forall j, (a <= j < i)%nat ->
                IZR (nth j wf 0%Z) - ped_mean < peak cur).

(** The peaks of a list of pulses stored one after the other, the first
    started from [q], each other one from the reset of the pulse before. *)
Inductive peaked (reset_param : pulse_param -> pulse_param) (wf : list Z)
  (ped_mean : R) : pulse_param -> list pulse_param -> Prop :=
| peaked_nil (q : pulse_param) : peaked reset_param wf ped_mean q []
| peaked_cons (q p : pulse_param) (a b : nat) (new : list pulse_param) :
    t_start p = INR a -> t_end p = INR b ->
    peak_between wf ped_mean q p a (S b) ->
    peaked reset_param wf ped_mean (reset_param p) new ->
    peaked reset_param wf ped_mean q (p :: new).

Definition peaked_from (reset_param : pulse_param -> pulse_param) (wf : list Z)
  (ped_mean : R) (q : pulse_param) (a : nat) (new : list pulse_param) : Prop :=
  match new with
  | [] => True
  | p :: rest =>
      exists b, t_start p = INR a /\ t_end p = INR b
        /\ peak_between wf ped_mean q p a (S b)
        /\ peaked reset_param wf ped_mean (reset_param p) rest
  end.

(** A pulse record as a constructor could leave it, and a [Reset] that
    empties the list of pulses; used on sample waveforms only. *)
Definition blank : pulse_param := mk_pulse_param (-1) 0 (-1) (-1) (-1).

Definition clear (self : AlgoThreshold) : AlgoThreshold :=
  mkAlgoThreshold (_adc_thres self) (_nsigma self) (_ped_mean self)
    (_ped_rms self) blank [].

Definition sample_algo : AlgoThreshold := mkAlgoThreshold 3 5 10 1 blank [blank].

Definition sample_waveform : list Z := [10; 20; 30; 5; 40]%Z.

End pmtana.

(** ** Basic facts *)

Lemma Rlt_b_true (a b : R) : a < b -> Rlt_b a b = true.
Proof. intros H. unfold Rlt_b. destruct (Rlt_dec a b); [reflexivity | contradiction]. Qed.

Lemma Rlt_b_false (a b : R) : b <= a -> Rlt_b a b = false.
Proof. intros H. unfold Rlt_b. destruct (Rlt_dec a b); [lra | reflexivity]. Qed.

Lemma Rlt_b_iff (a b : R) : Rlt_b a b = true <-> a < b.
Proof.
  unfold Rlt_b. destruct (Rlt_dec a b); split; intros H; try reflexivity;
    try assumption; try discriminate; contradiction.
Qed.

Lemma Rlt_b_false_iff (a b : R) : Rlt_b a b = false <-> b <= a.
Proof.
  split; [|apply Rlt_b_false].
  unfold Rlt_b. destruct (Rlt_dec a b); [discriminate | lra].
Qed.

(** Decide the comparisons of a goal over literals. *)
Ltac decide_Rlt :=
  repeat match goal with
    | |- context [Rlt_b ?a ?b] =>
        first [ rewrite (Rlt_b_true a b) by lra
              | rewrite (Rlt_b_false a b) by lra
              | rewrite (Rlt_b_true a b) by (apply sqrt_lt_R0; lra) ]
    end.

(** [sqrt] on either side of zero. *)
Lemma fp_sqrt_nonneg (x : R) : 0 <= x -> fp_sqrt x = Num (sqrt x).
Proof. intros H. unfold fp_sqrt. now rewrite Rlt_b_false. Qed.

Lemma fp_sqrt_neg (x : R) : x < 0 -> fp_sqrt x = NaN.
Proof. intros H. unfold fp_sqrt. now rewrite Rlt_b_true. Qed.

Lemma eigenVal0_nonneg (pcAxis : PCAxis) :
  0 <= getEigenValues pcAxis 0%nat ->
  eigenVal0 pcAxis = Num (sqrt (getEigenValues pcAxis 0%nat)).
Proof. apply fp_sqrt_nonneg. Qed.

Lemma eigenVal0_neg (pcAxis : PCAxis) :
  getEigenValues pcAxis 0%nat < 0 -> eigenVal0 pcAxis = NaN.
Proof. apply fp_sqrt_neg. Qed.

Lemma eigenVal0_square (pcAxis : PCAxis) (s : R) :
  getEigenValues pcAxis 0%nat = s * s -> 0 <= s -> eigenVal0 pcAxis = Num s.
Proof.
  intros E Hs. rewrite eigenVal0_nonneg by (rewrite E; now apply Rmult_le_pos).
  rewrite E. now rewrite sqrt_square.
Qed.

(** Lines 194-195 for an eigenvalue that is not below zero. *)
Lemma axisStart_nonneg (pcAxis : PCAxis) :
  0 <= getEigenValues pcAxis 0%nat ->
  axisStart pcAxis
  = FVector3.of_reals
      (TVector3.sub (vertexPosition pcAxis)
         (TVector3.scale (3 * sqrt (getEigenValues pcAxis 0%nat))
            (vertexDirection pcAxis))).
Proof.
  intros H. unfold axisStart, maxArcLen. rewrite eigenVal0_nonneg by exact H.
  reflexivity.
Qed.

Lemma axisEnd_nonneg (pcAxis : PCAxis) :
  0 <= getEigenValues pcAxis 0%nat ->
  axisEnd pcAxis
  = FVector3.of_reals
      (TVector3.add (vertexPosition pcAxis)
         (TVector3.scale (3 * sqrt (getEigenValues pcAxis 0%nat))
            (vertexDirection pcAxis))).
Proof.
  intros H. unfold axisEnd, maxArcLen. rewrite eigenVal0_nonneg by exact H.
  reflexivity.
Qed.

(** The test [eigenVal0 > 0.] of line 248 holds of the positive eigenvalues
    alone: the square root of zero is zero and NaN is not above zero. *)
Lemma eigenVal0_pos (pcAxis : PCAxis) :
  0 < getEigenValues pcAxis 0%nat <-> fp_gt_b (eigenVal0 pcAxis) 0 = true.
Proof.
  destruct (Rle_or_lt 0 (getEigenValues pcAxis 0%nat)) as [Hle | Hlt].
  - rewrite eigenVal0_nonneg by exact Hle. unfold fp_gt_b, fp_lt_b.
    rewrite Rlt_b_iff. split; intros H.
    + now apply sqrt_lt_R0.
    + destruct Hle as [Hlt | Heq]; [exact Hlt|].
      rewrite <- Heq, sqrt_0 in H. lra.
  - rewrite eigenVal0_neg by exact Hlt. unfold fp_gt_b, fp_lt_b.
    split; [lra | discriminate].
Qed.

Lemma cosmicScore_0 : cosmicScore 0 = 0.
Proof. reflexivity. Qed.

Lemma cosmicScore_1 : cosmicScore 1 = 1.
Proof. reflexivity. Qed.

Lemma cosmicScore_2 : cosmicScore 2 = 1.
Proof. reflexivity. Qed.

Lemma cosmicScore_3 : cosmicScore 3 = 0.4.
Proof. reflexivity. Qed.

Lemma cosmicScore_4 : cosmicScore 4 = 0.5.
Proof. reflexivity. Qed.

(** ** AxisSelector *)

Lemma order_axes_perm (l : list PCAxis) : Permutation (order_axes l) l.
Proof.
  unfold order_axes. destruct l as [|a l]; [constructor|].
  destruct (_ && _); [|reflexivity].
  symmetry. apply Permutation_rev.
Qed.

Lemma order_axes_nonempty (l : list PCAxis) : l <> [] -> order_axes l <> [].
Proof.
  intros H E. apply H. apply Permutation_nil. rewrite <- E.
  apply order_axes_perm.
Qed.

Lemma order_axes_single (a : PCAxis) : order_axes [a] = [a].
Proof. reflexivity. Qed.

(** C7. For an object with exactly two associated axes [a; b]: when the id
    of [a] is strictly larger than the id of [b] the pair is swapped to
    [b; a] and [b] is the canonical axis; otherwise the pair is left as it
    is and [a] is the canonical axis. *)
Theorem C7_pair_ordered_by_id (a b : PCAxis) :
  ((getID b < getID a)%nat ->
     order_axes [a; b] = [b; a] /\ hd a (order_axes [a; b]) = b)
  /\ ((getID a <= getID b)%nat ->
     order_axes [a; b] = [a; b] /\ hd a (order_axes [a; b]) = a).
Proof.
  unfold order_axes. cbn [length last].
  change (1 <? 2)%nat with true. cbn [andb].
  split; intros H.
  - apply Nat.ltb_lt in H. rewrite H. split; reflexivity.
  - apply Nat.nlt_ge in H. apply Nat.ltb_nlt in H. rewrite H. split; reflexivity.
Qed.

(** The pair of section 8: ids (5, 3) select the axis with id 3. *)
Example pair_5_3_selects_3 :
  getID (hd (x_axis 5 100 1) (order_axes [x_axis 5 100 1; x_axis 3 120 1])) = 3%nat.
Proof. reflexivity. Qed.

Example pair_3_5_selects_3 :
  getID (hd (x_axis 3 100 1) (order_axes [x_axis 3 100 1; x_axis 5 120 1])) = 3%nat.
Proof. reflexivity. Qed.

(** ** TimingFilter *)

Section TimingFilter.

Variable self : CosmicPCAxisTagger.

Lemma scan_hits_existsb (hitVec : list Hit) (st : TagState) :
  scan_hits self hitVec st
  = if existsb (out_of_time self) hitVec then flagged else st.
Proof.
  induction hitVec as [|hit rest IH]; cbn [scan_hits existsb]; [reflexivity|].
  destruct (out_of_time self hit); [reflexivity | exact IH].
Qed.

Lemma scan_hits_break (pre post : list Hit) (hit : Hit) (st : TagState) :
  out_of_time self hit = true ->
  scan_hits self (pre ++ hit :: post) st = flagged.
Proof.
  intros H. rewrite scan_hits_existsb, existsb_app. cbn [existsb].
  rewrite H, orb_true_r. reflexivity.
Qed.

Lemma scan_hits_flagged (hitVec : list Hit) : scan_hits self hitVec flagged = flagged.
Proof. rewrite scan_hits_existsb. now destruct (existsb _ _). Qed.

Lemma timing_filter_flagged (hitVecs : list (list Hit)) :
  timing_filter self hitVecs flagged = flagged.
Proof.
  unfold timing_filter. induction hitVecs as [|hitVec rest IH]; [reflexivity|].
  cbn [fold_left]. rewrite scan_hits_flagged. exact IH.
Qed.

Lemma timing_filter_existsb (hitVecs : list (list Hit)) (st : TagState) :
  timing_filter self hitVecs st
  = if existsb (existsb (out_of_time self)) hitVecs then flagged else st.
Proof.
  revert st. induction hitVecs as [|hitVec rest IH]; intros st; [reflexivity|].
  change (timing_filter self (hitVec :: rest) st)
    with (timing_filter self rest (scan_hits self hitVec st)).
  cbn [existsb]. rewrite scan_hits_existsb.
  destruct (existsb (out_of_time self) hitVec); cbn [orb].
  - apply timing_filter_flagged.
  - apply IH.
Qed.

Lemma timing_filter_state (hitVecs : list (list Hit)) :
  timing_state (timing_filter self hitVecs initial).
Proof.
  rewrite timing_filter_existsb. destruct (existsb _ _); [right | left]; reflexivity.
Qed.

Lemma scan_clusters_flagged (assns : art.FindManyP Hit) (clusterVec : list Cluster)
  (st : TagState) :
  scan_clusters self assns clusterVec flagged = Ok st -> st = flagged.
Proof.
  induction clusterVec as [|cluster rest IH]; cbn [scan_clusters].
  - intros H. now inversion H.
  - destruct (hits_of assns cluster) as [hitVec|e]; cbn [bind]; [|discriminate].
    rewrite scan_hits_flagged. exact IH.
Qed.

(** The loop with its lookups is the loop over the hit vectors found. *)
Lemma scan_clusters_timing_filter (assns : art.FindManyP Hit)
  (clusterVec : list Cluster) (hitVecs : list (list Hit)) (st : TagState) :
  Forall2 (fun c hitVec => hits_of assns c = Ok hitVec) clusterVec hitVecs ->
  scan_clusters self assns clusterVec st = Ok (timing_filter self hitVecs st).
Proof.
  intros H. revert st. induction H as [|c hitVec cs hss Hc _ IH]; intros st.
  - reflexivity.
  - cbn [scan_clusters]. rewrite Hc. cbn [bind]. apply IH.
Qed.

Lemma scan_clusters_found (assns : art.FindManyP Hit) (clusterVec : list Cluster)
  (st st' : TagState) :
  scan_clusters self assns clusterVec st = Ok st' ->
  exists hitVecs,
    Forall2 (fun c hitVec => hits_of assns c = Ok hitVec) clusterVec hitVecs
    /\ st' = timing_filter self hitVecs st.
Proof.
  revert st. induction clusterVec as [|cluster rest IH]; intros st; cbn [scan_clusters].
  - intros H. inversion H. exists []. split; [constructor | reflexivity].
  - destruct (hits_of assns cluster) as [hitVec|e] eqn:E; cbn [bind]; [|discriminate].
    intros H. destruct (IH _ H) as (hss & HF & ->).
    exists (hitVec :: hss). split; [constructor; assumption | reflexivity].
Qed.

Lemma scan_clusters_total (assns : art.FindManyP Hit) (clusterVec : list Cluster)
  (st : TagState) :
  Forall (fun c => exists hitVec, hits_of assns c = Ok hitVec) clusterVec ->
  exists st', scan_clusters self assns clusterVec st = Ok st'.
Proof.
  intros H. revert st. induction H as [|c cs [hitVec Hc] _ IH]; intros st.
  - exists st. reflexivity.
  - cbn [scan_clusters]. rewrite Hc. cbn [bind]. apply IH.
Qed.

End TimingFilter.

(** ** BoundaryClassifier *)

Section BoundaryClassifier.

Variable self : CosmicPCAxisTagger.

(** The decision of the code is the table of rules 1 to 3, the incoming
    state being kept when no rule matches. *)
Lemma boundary_tag_rules (p1 p2 : FVector3) (st : TagState) :
  boundary_tag self p1 p2 st
  = match boundary_rules self p1 p2 with Some s => s | None => st end.
Proof.
  unfold boundary_tag, boundary_rules, rule1, rule1_kind, any_at, exit_at,
    nearX_at, nearY_at, nearZ_at.
  destruct (nearX self (FVector3.X p1)), (nearX self (FVector3.X p2)),
    (nearY self (FVector3.Y p1)), (nearY self (FVector3.Y p2)),
    (nearZ self (FVector3.Z p1)), (nearZ self (FVector3.Z p2)); reflexivity.
Qed.

Lemma boundary_tag_level2 (p1 p2 : FVector3) (st : TagState) :
  isCosmic st <> 2%Z ->
  (isCosmic (boundary_tag self p1 p2 st) = 2%Z <-> rule1 self p1 p2 = true).
Proof.
  intros Hst. rewrite boundary_tag_rules. unfold boundary_rules.
  destruct (rule1 self p1 p2); cbn [isCosmic].
  - split; reflexivity.
  - destruct (_ && _); [cbn [isCosmic]; split; discriminate|].
    destruct (xorb _ _); [cbn [isCosmic]; split; discriminate|].
    split; [contradiction | discriminate].
Qed.

(** Whatever the timing loop left, a level and a kind go together, so the
    score is the score of the kind. *)
Lemma boundary_tag_score (p1 p2 : FVector3) (st : TagState) :
  cosmicScore (isCosmic st) = score_of_kind (tag_id st) ->
  cosmicScore (isCosmic (boundary_tag self p1 p2 st))
  = score_of_kind (tag_id (boundary_tag self p1 p2 st)).
Proof.
  intros Hst. unfold boundary_tag.
  destruct (nearX self (FVector3.X p1)), (nearX self (FVector3.X p2)),
    (nearY self (FVector3.Y p1)), (nearY self (FVector3.Y p2)),
    (nearZ self (FVector3.Z p1)), (nearZ self (FVector3.Z p2));
    cbn [orb andb xorb isCosmic tag_id]; try reflexivity; exact Hst.
Qed.

End BoundaryClassifier.

(** ** ExtentProjector *)

Section Scan.

Context {A : Type}.
Variables (key : A -> R) (pos : A -> FVector3).
Variables (less : R -> R -> Prop) (better : R -> R -> bool).

Hypothesis better_iff : forall a b, better a b = true <-> less a b.
Hypothesis less_trans : forall a b c, less a b -> less b c -> less a c.
Hypothesis less_weak : forall a b c, less a b -> ~ less c b -> less a c.

Lemma scan_cons (best : R) (at_best : FVector3) (p : A) (l : list A) :
  scan key pos better best at_best (p :: l)
  = if better (key p) best
    then scan key pos better (key p) (pos p) l
    else scan key pos better best at_best l.
Proof. unfold scan. cbn [fold_left fst]. now destruct (better (key p) best). Qed.

(** Nothing better than the initial bound: the bound and its position stay. *)
Lemma scan_none (best : R) (at_best : FVector3) (l : list A) :
  Forall (fun q => ~ less (key q) best) l ->
  scan key pos better best at_best l = (best, at_best).
Proof.
  induction 1 as [|q l Hq _ IH]; [reflexivity|].
  rewrite scan_cons. destruct (better (key q) best) eqn:E; [|exact IH].
  apply better_iff in E. contradiction.
Qed.

(** Otherwise the result is the earliest element that no other beats. *)
Lemma scan_first_best (best : R) (at_best : FVector3) (l : list A) :
  Exists (fun q => less (key q) best) l ->
  exists l1 p l2,
    l = l1 ++ p :: l2
    /\ less (key p) best
    /\ (forall q, In q l1 -> less (key p) (key q))
    /\ (forall q, In q l2 -> ~ less (key q) (key p))
    /\ scan key pos better best at_best l = (key p, pos p).
Proof.
  revert best at_best. induction l as [|a l IH]; intros best at_best HE.
  - inversion HE.
  - rewrite scan_cons. destruct (better (key a) best) eqn:E.
    + apply better_iff in E.
      destruct (Exists_dec (fun q => less (key q) (key a)) l) as [HE' | HN].
      * intros q. destruct (better (key q) (key a)) eqn:Eq.
        -- left. now apply better_iff.
        -- right. intros Hq. apply better_iff in Hq. congruence.
      * destruct (IH (key a) (pos a) HE') as (l1 & p & l2 & -> & Hp & H1 & H2 & Hs).
        exists (a :: l1), p, l2. repeat split; try assumption.
        -- now apply less_trans with (key a).
        -- intros q [<- | Hq]; [exact Hp | now apply H1].
      * exists [], a, l. repeat split; try assumption.
        -- intros q [].
        -- intros q Hq Hlt. apply HN. apply Exists_exists. now exists q.
        -- apply scan_none. apply Forall_forall. intros q Hq Hlt.
           apply HN. apply Exists_exists. now exists q.
    + assert (Ha : ~ less (key a) best).
      { intros Ha. apply better_iff in Ha. congruence. }
      inversion HE as [? ? Hhd | ? ? Htl]; subst; [contradiction|].
      destruct (IH best at_best Htl) as (l1 & p & l2 & -> & Hp & H1 & H2 & Hs).
      exists (a :: l1), p, l2. repeat split; try assumption.
      intros q [<- | Hq]; [|now apply H1].
      now apply less_weak with best.
Qed.

End Scan.

Section ExtentProjector.

Variables vertexPosition vertexDirection : TVector3.

Let arc := arcLen vertexPosition vertexDirection.
Let pos := fun p : SpacePoint => FVector3.of_reals (spacePointPos p).

(** The search of the code runs the two halves side by side. *)
Lemma fold_extent_scans (l : list SpacePoint) (e : Extent) :
  let r := fold_left (extent_step vertexPosition vertexDirection) l e in
  (arcLengthToFirstHit r, pcAxisStart r)
  = scan arc pos Rlt_b (arcLengthToFirstHit e) (pcAxisStart e) l
  /\ (arcLengthToLastHit r, pcAxisEnd r)
     = scan arc pos Rgt_b (arcLengthToLastHit e) (pcAxisEnd e) l.
Proof.
  revert e. induction l as [|p l IH]; intros e; [split; reflexivity|].
  cbn [fold_left]. rewrite !scan_cons.
  specialize (IH (extent_step vertexPosition vertexDirection e p)).
  cbv zeta in IH |- *. destruct IH as [IH1 IH2]. rewrite IH1, IH2.
  unfold extent_step. fold arc. fold (pos p). unfold Rgt_b.
  destruct (Rlt_b (arc p) (arcLengthToFirstHit e)); cbn [arcLengthToLastHit];
    destruct (Rlt_b (arcLengthToLastHit e) (arc p));
    cbn [arcLengthToFirstHit arcLengthToLastHit pcAxisStart pcAxisEnd];
    split; reflexivity.
Qed.

Lemma find_extent_start (l : list SpacePoint) (start end_ : FVector3) :
  pcAxisStart (find_extent vertexPosition vertexDirection l start end_)
  = snd (scan arc pos Rlt_b 9999 start l).
Proof.
  unfold find_extent.
  destruct (fold_extent_scans l (mkExtent 9999 (-9999) start end_)) as [H _].
  cbn [arcLengthToFirstHit pcAxisStart] in H. rewrite <- H. reflexivity.
Qed.

Lemma find_extent_end (l : list SpacePoint) (start end_ : FVector3) :
  pcAxisEnd (find_extent vertexPosition vertexDirection l start end_)
  = snd (scan arc pos Rgt_b (-9999) end_ l).
Proof.
  unfold find_extent.
  destruct (fold_extent_scans l (mkExtent 9999 (-9999) start end_)) as [_ H].
  cbn [arcLengthToLastHit pcAxisEnd] in H. rewrite <- H. reflexivity.
Qed.

End ExtentProjector.

(** ** One particle *)

Section Particle.

Variable self : CosmicPCAxisTagger.

Lemma out_of_time_iff (hit : Hit) :
  out_of_time self hit = true
  <-> PeakTimeMinusRMS hit < IZR (fDetectorWidthTicks self)
      \/ PeakTimePlusRMS hit > 2 * IZR (fDetectorWidthTicks self).
Proof.
  unfold out_of_time, Rgt_b. rewrite orb_true_iff, !Rlt_b_iff. unfold Rgt. tauto.
Qed.

Lemma timing_filter_Exists (hitVecs : list (list Hit)) :
  Exists (Exists (fun hit => out_of_time self hit = true)) hitVecs ->
  timing_filter self hitVecs initial = flagged.
Proof.
  intros H. rewrite timing_filter_existsb.
  replace (existsb (existsb (out_of_time self)) hitVecs) with true; [reflexivity|].
  symmetry. apply existsb_exists. apply Exists_exists in H.
  destruct H as (hitVec & Hin & H). exists hitVec. split; [exact Hin|].
  apply existsb_exists. apply Exists_exists in H. exact H.
Qed.

Lemma timing_filter_level (hitVecs : list (list Hit)) :
  isCosmic (timing_filter self hitVecs initial) = 0%Z ->
  timing_filter self hitVecs initial = initial.
Proof.
  destruct (timing_filter_state self hitVecs) as [-> | ->]; [reflexivity | discriminate].
Qed.

(** The gate of line 242 or the guard of line 248 closed. *)
Lemma classify_skipped (pcAxis : PCAxis) (st : TagState) (spacePointVec : list SpacePoint) :
  isCosmic st <> 0%Z \/ spacePointVec = []
  \/ getEigenValues pcAxis 0%nat <= 0 \/ transRMS pcAxis <= 0 ->
  classify self pcAxis st spacePointVec
  = mkTagged (axisStart pcAxis) (axisEnd pcAxis) st.
Proof.
  intros H. unfold classify.
  destruct ((isCosmic st =? 0)%Z && negb (length spacePointVec =? 0)%nat) eqn:Egate;
    [|reflexivity].
  destruct (fp_gt_b (eigenVal0 pcAxis) 0 && Rgt_b (transRMS pcAxis) 0) eqn:Eguard;
    [|reflexivity].
  exfalso. apply andb_true_iff in Egate, Eguard.
  destruct Egate as [El En], Eguard as [E0 Et].
  apply Z.eqb_eq in El. apply negb_true_iff, Nat.eqb_neq in En.
  apply eigenVal0_pos in E0. apply Rlt_b_iff in Et.
  destruct H as [H | [-> | [H | H]]]; [contradiction | now apply En | lra | lra].
Qed.

(** Both open. *)
Lemma classify_projected (pcAxis : PCAxis) (st : TagState) (spacePointVec : list SpacePoint) :
  isCosmic st = 0%Z -> spacePointVec <> [] ->
  0 < getEigenValues pcAxis 0%nat -> 0 < transRMS pcAxis ->
  classify self pcAxis st spacePointVec
  = let e := find_extent (vertexPosition pcAxis) (vertexDirection pcAxis)
               spacePointVec (axisStart pcAxis) (axisEnd pcAxis) in
    mkTagged (pcAxisStart e) (pcAxisEnd e)
      (boundary_tag self (pcAxisStart e) (pcAxisEnd e) st).
Proof.
  intros Hl Hn H0 Ht. unfold classify. rewrite Hl.
  destruct spacePointVec as [|p l]; [contradiction|].
  apply eigenVal0_pos in H0. rewrite H0.
  unfold Rgt_b. rewrite (Rlt_b_true _ _ Ht). reflexivity.
Qed.

Lemma classify_flagged (pcAxis : PCAxis) (spacePointVec : list SpacePoint) :
  classify self pcAxis flagged spacePointVec
  = mkTagged (axisStart pcAxis) (axisEnd pcAxis) flagged.
Proof. apply classify_skipped. left. discriminate. Qed.

(** Level and kind go together in every tag. *)
Lemma classify_score (pcAxis : PCAxis) (st : TagState) (spacePointVec : list SpacePoint) :
  timing_state st ->
  let tag := make_tag (classify self pcAxis st spacePointVec) in
  fCosmicScore tag = score_of_kind (fCosmicType tag).
Proof.
  intros Hst. cbn [make_tag fCosmicScore fCosmicType].
  assert (H0 : cosmicScore (isCosmic st) = score_of_kind (tag_id st)).
  { destruct Hst as [-> | ->]; reflexivity. }
  unfold classify.
  destruct (_ && _); [|exact H0].
  destruct (_ && _); [|exact H0].
  cbn [state]. now apply boundary_tag_score.
Qed.

End Particle.

(** ** Evaluation on sample data *)

(** Evaluation on sample data goes inside out, so that no comparison is
    left undecided inside another one. *)

(** The lookups and the timing scan. *)
Ltac eval_timing :=
  cbv beta iota zeta delta
    [produce tag_all tag_one bind order_axes scan_clusters hits_of
     art.at_ art.isValid art.pfParticleHandle art.clusterHandle art.pcaxisHandle
     art.pfPartToPCAxisAssns art.spacePointAssnVec art.clusterAssns
     art.clusterHitAssns ID getID
     tag_particle timing_filter scan_hits out_of_time Rgt_b
     PeakTimeMinusRMS PeakTimePlusRMS fDetectorWidthTicks
     detector in_time_hit early_hit
     sample_event event_without_space_points event_without_axis_assns
     event_without_axes event_with_no_space_point
     fold_left length app rev hd last seq nth_error
     Nat.eqb Nat.ltb Nat.leb Z.to_nat Pos.to_nat Pos.iter_op Nat.add
     Z.ltb Z.compare negb andb orb].

(** The square root of the dominant eigenvalue of a sample axis, and the
    operations on numbers that are then left. *)
Ltac eval_sqrt :=
  repeat match goal with
    | |- context [eigenVal0 ?a] =>
        rewrite (eigenVal0_square a _ eq_refl) by lra
    end;
  cbv beta iota delta [fp_add fp_sub fp_mul fp_map2 fp_lt_b fp_gt_b].

(** The gate and the guard of [classify]. *)
Ltac eval_gate :=
  cbv beta iota zeta delta
    [classify flagged initial isCosmic transRMS getEigenValues
     crossing_axis inner_axis x_axis array3 crossing_points inner_points
     length Nat.eqb Z.eqb Pos.eqb negb andb Rgt_b];
  eval_sqrt.

(** One step of the extremal search, on a state that is already a value. *)
Ltac eval_extent_step :=
  match goal with
  | |- context [extent_step ?vp ?vd (mkExtent ?a ?b ?s ?e) ?p] =>
      let H := fresh "H" in
      eassert (H : extent_step vp vd (mkExtent a b s e) p = _);
      [ cbv beta iota zeta delta
          [extent_step arcLen spacePointPos vertexPosition vertexDirection
           TVector3.X TVector3.Y TVector3.Z TVector3.sub TVector3.Dot
           FVector3.of_reals
           getEigenVectors getAvePosition XYZ
           arcLengthToFirstHit arcLengthToLastHit pcAxisStart pcAxisEnd
           crossing_axis inner_axis x_axis point far_point array3 rows3 Rgt_b];
        decide_Rlt; cbv beta iota; reflexivity
      | rewrite H; clear H ]
  end.

Ltac eval_extent :=
  cbv beta iota delta [find_extent fold_left crossing_points inner_points];
  repeat eval_extent_step.

(** What is left: the end points, the decision, the tag and the tables. *)
Ltac eval_rest :=
  cbv beta iota zeta delta
    [boundary_tag boundary_rules rules_before_timing rule1 rule1_kind
     nearX_at nearY_at nearZ_at exit_at any_at nearX nearY nearZ
     make_tag cosmicScore emplace flagged initial
     maxArcLen vertexPosition vertexDirection axisStart axisEnd
     spacePointPos arcLen
     TVector3.X TVector3.Y TVector3.Z TVector3.add TVector3.sub TVector3.scale
     TVector3.Dot
     FVector3.X FVector3.Y FVector3.Z FVector3.add FVector3.sub FVector3.scale
     FVector3.of_reals
     getEigenValues getEigenVectors getAvePosition XYZ
     fTPCXBoundary fTPCYBoundary fTPCZBoundary fDetHalfHeight fDetWidth fDetLength
     isCosmic tag_id trackEndPt1 trackEndPt2 state
     arcLengthToFirstHit arcLengthToLastHit pcAxisStart pcAxisEnd
     endPt1 endPt2 fCosmicScore fCosmicType
     cosmicTagPFParticleVector assnOutCosmicTagPFParticle assnOutCosmicTagPCAxis
     no_output detector crossing_axis inner_axis x_axis point far_point array3 rows3
     length app map Nat.sub Nat.add];
  eval_sqrt.

Ltac reduce_bool :=
  cbv beta iota delta [andb orb xorb negb Z.eqb Z.ltb Z.compare Pos.compare
                       Pos.compare_cont Pos.eqb bind].

Ltac evaluate :=
  repeat (progress (eval_timing; decide_Rlt; reduce_bool));
  eval_gate; decide_Rlt; reduce_bool;
  eval_extent;
  eval_rest; decide_Rlt; reduce_bool.

Lemma transRMS_x_axis (id : nat) (x s : R) : 0 < transRMS (x_axis id x s).
Proof. unfold transRMS. cbn [x_axis getEigenValues array3]. apply sqrt_lt_R0. lra. Qed.

Example crossing_axis_ends :
  axisStart crossing_axis = TVector3.mk (128 - 3 * 42 * 1) (0 - 3 * 42 * 0) (500 - 3 * 42 * 0)
  /\ axisEnd crossing_axis = TVector3.mk (128 + 3 * 42 * 1) (0 + 3 * 42 * 0) (500 + 3 * 42 * 0).
Proof. evaluate. split; reflexivity. Qed.

Example crossing_points_untimed :
  state (tag_particle detector crossing_axis [[in_time_hit]] crossing_points)
  = mkTagState 2 kGeometry_XX.
Proof. evaluate. reflexivity. Qed.

(** ** The timing flag and the boundary rules *)

(** C1, as amended. For every object one of whose hits has
    [peakTimeMinusRMS < driftWindowTicks] or
    [peakTimePlusRMS > 2 * driftWindowTicks], the timing filter leaves
    cosmic-level 1 and the boundary rules are not applied: whatever the axis
    and the space points are, the emitted tag-kind is OutsideDrift_Partial
    with score 1.0. *)
Theorem C1_flagged_object_keeps_timing_tag (self : CosmicPCAxisTagger)
  (pcAxis : PCAxis) (hitVecs : list (list Hit)) (spacePointVec : list SpacePoint) :
  Exists (Exists (fun hit =>
            PeakTimeMinusRMS hit < IZR (fDetectorWidthTicks self)
            \/ PeakTimePlusRMS hit > 2 * IZR (fDetectorWidthTicks self))) hitVecs ->
  isCosmic (timing_filter self hitVecs initial) = 1%Z
  /\ state (tag_particle self pcAxis hitVecs spacePointVec)
     = mkTagState 1 kOutsideDrift_Partial
  /\ fCosmicType (make_tag (tag_particle self pcAxis hitVecs spacePointVec))
     = kOutsideDrift_Partial
  /\ fCosmicScore (make_tag (tag_particle self pcAxis hitVecs spacePointVec)) = 1.
Proof.
  intros H.
  assert (Hf : timing_filter self hitVecs initial = flagged).
  { apply timing_filter_Exists. eapply Exists_impl; [|exact H].
    intros hitVec. apply Exists_impl. intros hit. apply out_of_time_iff. }
  unfold tag_particle. rewrite Hf, classify_flagged.
  repeat split; reflexivity.
Qed.

Lemma C1_flagged_object_witness :
  state (tag_particle detector crossing_axis [[in_time_hit]; [in_time_hit; early_hit]]
           crossing_points)
  = mkTagState 1 kOutsideDrift_Partial.
Proof.
  apply (C1_flagged_object_keeps_timing_tag detector crossing_axis
           [[in_time_hit]; [in_time_hit; early_hit]] crossing_points).
  apply Exists_cons_tl, Exists_cons_hd, Exists_cons_tl, Exists_cons_hd.
  left. cbv [early_hit PeakTimeMinusRMS detector fDetectorWidthTicks]. lra.
Defined.

(** The object of [crossing_axis] has an early hit, and both of its end
    points, read from the axis or from the space points, are within the x
    margin of a face. Rules 1 to 3 applied first would give level 2 and
    Geometry_XX, as they do for the same object with in-time hits; the code
    emits level 1 and OutsideDrift_Partial. *)
Lemma C1_rules_do_not_override :
  out_of_time detector early_hit = true
  /\ rules_before_timing detector
       (tag_particle detector crossing_axis [[early_hit]] crossing_points)
     = mkTagState 2 kGeometry_XX
  /\ boundary_rules detector (spacePointPos (point 2 0 500))
       (spacePointPos (point 254 0 500))
     = Some (mkTagState 2 kGeometry_XX)
  /\ state (tag_particle detector crossing_axis [[early_hit]] crossing_points)
     = mkTagState 1 kOutsideDrift_Partial
  /\ state (tag_particle detector crossing_axis [[early_hit]] crossing_points)
     <> rules_before_timing detector
          (tag_particle detector crossing_axis [[early_hit]] crossing_points).
Proof.
  assert (H1 : out_of_time detector early_hit = true) by (evaluate; reflexivity).
  assert (H2 : rules_before_timing detector
                 (tag_particle detector crossing_axis [[early_hit]] crossing_points)
               = mkTagState 2 kGeometry_XX) by (evaluate; reflexivity).
  assert (H3 : state (tag_particle detector crossing_axis [[early_hit]] crossing_points)
               = mkTagState 1 kOutsideDrift_Partial) by (evaluate; reflexivity).
  repeat split; try assumption.
  - evaluate. reflexivity.
  - rewrite H2, H3. discriminate.
Qed.

(** ** The axis-derived end points *)

(** C10. When the projector branch does not run (the timing flag is set, or
    the object has no space point, or the dominant eigenvalue is not
    positive, or the transverse spread is not positive) the end points of
    the tag are [mean - 3 sqrt(e0) direction] and
    [mean + 3 sqrt(e0) direction], three coordinates each, [sqrt] being the
    one of the C library: for [0 <= e0] the coordinates are the numbers
    [mean -+ 3 sqrt(e0) direction], for [e0 < 0] the square root is NaN and
    so are the six coordinates. *)
Theorem C10_fallback_end_points (self : CosmicPCAxisTagger)
  (pcAxis : PCAxis) (hitVecs : list (list Hit)) (spacePointVec : list SpacePoint) :
  isCosmic (timing_filter self hitVecs initial) = 1%Z
  \/ spacePointVec = []
  \/ getEigenValues pcAxis 0%nat <= 0
  \/ transRMS pcAxis <= 0 ->
  let e0 := getEigenValues pcAxis 0%nat in
  let mean := getAvePosition pcAxis in
  let direction := getEigenVectors pcAxis 0%nat in
  let t := tag_particle self pcAxis hitVecs spacePointVec in
  (trackEndPt1 t
   = FVector3.sub (vertexPosition pcAxis)
       (FVector3.scale (fp_mul 3 (fp_sqrt e0)) (vertexDirection pcAxis))
   /\ trackEndPt2 t
      = FVector3.add (vertexPosition pcAxis)
          (FVector3.scale (fp_mul 3 (fp_sqrt e0)) (vertexDirection pcAxis))
   /\ endPt1 (make_tag t)
      = [fp_sub (mean 0%nat) (fp_mul (fp_mul 3 (fp_sqrt e0)) (direction 0%nat));
         fp_sub (mean 1%nat) (fp_mul (fp_mul 3 (fp_sqrt e0)) (direction 1%nat));
         fp_sub (mean 2%nat) (fp_mul (fp_mul 3 (fp_sqrt e0)) (direction 2%nat))]
   /\ endPt2 (make_tag t)
      = [fp_add (mean 0%nat) (fp_mul (fp_mul 3 (fp_sqrt e0)) (direction 0%nat));
         fp_add (mean 1%nat) (fp_mul (fp_mul 3 (fp_sqrt e0)) (direction 1%nat));
         fp_add (mean 2%nat) (fp_mul (fp_mul 3 (fp_sqrt e0)) (direction 2%nat))])
  /\ (0 <= e0 ->
      endPt1 (make_tag t)
      = [Num (mean 0%nat - 3 * sqrt e0 * direction 0%nat);
         Num (mean 1%nat - 3 * sqrt e0 * direction 1%nat);
         Num (mean 2%nat - 3 * sqrt e0 * direction 2%nat)]
      /\ endPt2 (make_tag t)
         = [Num (mean 0%nat + 3 * sqrt e0 * direction 0%nat);
            Num (mean 1%nat + 3 * sqrt e0 * direction 1%nat);
            Num (mean 2%nat + 3 * sqrt e0 * direction 2%nat)])
  /\ (e0 < 0 ->
      endPt1 (make_tag t) = [NaN; NaN; NaN]
      /\ endPt2 (make_tag t) = [NaN; NaN; NaN]).
Proof.
  intros H e0 mean direction t. unfold t, tag_particle.
  rewrite classify_skipped.
  - cbn [make_tag trackEndPt1 trackEndPt2 endPt1 endPt2].
    unfold axisStart, axisEnd, maxArcLen, eigenVal0. fold e0.
    split; [repeat split; reflexivity|]. split.
    + intros H0. rewrite (fp_sqrt_nonneg e0 H0). split; reflexivity.
    + intros H0. rewrite (fp_sqrt_neg e0 H0). split; reflexivity.
  - destruct H as [H | [H | [H | H]]]; auto.
    left. rewrite H. discriminate.
Qed.

(** The end points of a tag always hold three coordinates each. *)
Lemma end_points_populated (t : Tagged) :
  length (endPt1 (make_tag t)) = 3%nat /\ length (endPt2 (make_tag t)) = 3%nat.
Proof. split; reflexivity. Qed.

(** An axis whose dominant eigenvalue is below zero: whatever its hits and
    space points are, the six coordinates of its tag are NaN. *)
Lemma C10_fallback_witness :
  endPt1 (make_tag (tag_particle detector negative_axis [[in_time_hit]] inner_points))
  = [NaN; NaN; NaN]
  /\ endPt2 (make_tag (tag_particle detector negative_axis [[in_time_hit]] inner_points))
     = [NaN; NaN; NaN].
Proof.
  apply (C10_fallback_end_points detector negative_axis [[in_time_hit]] inner_points).
  - right. right. left. cbv [negative_axis getEigenValues array3]. lra.
  - cbv [negative_axis getEigenValues array3]. lra.
Defined.

(** The end points of an object without space points, in numbers: the axis
    of half length 30 about x = 128. *)
Example inner_axis_fallback :
  endPt1 (make_tag (tag_particle detector inner_axis [[in_time_hit]] []))
  = [Num (128 - 3 * 10 * 1); Num (0 - 3 * 10 * 0); Num (500 - 3 * 10 * 0)].
Proof. evaluate. reflexivity. Qed.

(** ** The timing scan *)

(** C5. In the scan of one cluster an out-of-time hit sets cosmic-level 1
    and the candidate tag OutsideDrift_Partial whatever precedes it, and the
    hits after it do not matter; the scan then goes on with the next
    cluster, whose hits are still looked up; from a set flag no further
    cluster, and no later stage of the classification of the object, clears
    it. *)
Theorem C5_timing_flag_is_sticky (self : CosmicPCAxisTagger) :
  (forall (pre post : list Hit) (hit : Hit) (st : TagState),
      PeakTimeMinusRMS hit < IZR (fDetectorWidthTicks self)
      \/ PeakTimePlusRMS hit > 2 * IZR (fDetectorWidthTicks self) ->
      scan_hits self (pre ++ hit :: post) st = mkTagState 1 kOutsideDrift_Partial
      /\ scan_hits self (pre ++ hit :: post) st = scan_hits self (pre ++ [hit]) st)
  /\ (forall assns cluster rest hitVec st,
         hits_of assns cluster = Ok hitVec ->
         scan_clusters self assns (cluster :: rest) st
         = scan_clusters self assns rest (scan_hits self hitVec st))
  /\ (forall assns cluster next rest hitVec st e,
         hits_of assns cluster = Ok hitVec ->
         hits_of assns next = Raise e ->
         scan_clusters self assns (cluster :: next :: rest) st = Raise e)
  /\ (forall (before after : list (list Hit)) (hitVec : list Hit),
         Exists (fun hit => out_of_time self hit = true) hitVec ->
         timing_filter self (before ++ hitVec :: after) initial
         = mkTagState 1 kOutsideDrift_Partial)
  /\ (forall assns clusterVec st,
         scan_clusters self assns clusterVec (mkTagState 1 kOutsideDrift_Partial)
         = Ok st ->
         st = mkTagState 1 kOutsideDrift_Partial)
  /\ (forall pcAxis spacePointVec,
         state (classify self pcAxis (mkTagState 1 kOutsideDrift_Partial) spacePointVec)
         = mkTagState 1 kOutsideDrift_Partial).
Proof.
  repeat apply conj.
  - intros pre post hit st H. apply out_of_time_iff in H.
    rewrite !scan_hits_break by exact H. split; reflexivity.
  - intros assns cluster rest hitVec st H. cbn [scan_clusters]. rewrite H. reflexivity.
  - intros assns cluster next rest hitVec st e H1 H2.
    cbn [scan_clusters]. rewrite H1. cbn [bind]. rewrite H2. reflexivity.
  - intros before after hitVec H. apply timing_filter_Exists.
    apply Exists_app. right. now constructor.
  - intros assns clusterVec st. apply scan_clusters_flagged.
  - intros pcAxis spacePointVec. now rewrite classify_flagged.
Qed.

(** An in-time cluster after an out-of-time one leaves the flag set. *)
Example in_time_cluster_after_early_one :
  timing_filter detector [[in_time_hit; early_hit; in_time_hit]; [in_time_hit]] initial
  = mkTagState 1 kOutsideDrift_Partial
  /\ timing_filter detector [[in_time_hit]; [in_time_hit]] initial
     = mkTagState 0 kNotTagged.
Proof. split; evaluate; reflexivity. Qed.

(** ** Priority rule 1 *)

(** C4. For an object that reaches the boundary classifier (cosmic-level 0
    after the timing scan, space points present, dominant eigenvalue and
    transverse spread positive), rule 1 fires, that is the level becomes 2,
    exactly when [(exit(start) AND exit(end)) OR (exit(start) AND nearZ(end))
    OR (exit(start) AND nearZ(start))] holds of the emitted end points; the
    score is then 1.0 and the kind the first match among XX, YY, XY, XZ
    and YZ. *)
Theorem C4_rule1_fires_on_exit_of_start (self : CosmicPCAxisTagger)
  (pcAxis : PCAxis) (hitVecs : list (list Hit)) (spacePointVec : list SpacePoint) :
  isCosmic (timing_filter self hitVecs initial) = 0%Z ->
  spacePointVec <> [] ->
  0 < getEigenValues pcAxis 0%nat ->
  0 < transRMS pcAxis ->
  (isCosmic (state (tag_particle self pcAxis hitVecs spacePointVec)) = 2%Z
   <-> rule1 self (trackEndPt1 (tag_particle self pcAxis hitVecs spacePointVec))
         (trackEndPt2 (tag_particle self pcAxis hitVecs spacePointVec)) = true)
  /\ (rule1 self (trackEndPt1 (tag_particle self pcAxis hitVecs spacePointVec))
        (trackEndPt2 (tag_particle self pcAxis hitVecs spacePointVec)) = true ->
      fCosmicScore (make_tag (tag_particle self pcAxis hitVecs spacePointVec)) = 1
      /\ fCosmicType (make_tag (tag_particle self pcAxis hitVecs spacePointVec))
         = rule1_kind self
             (trackEndPt1 (tag_particle self pcAxis hitVecs spacePointVec))
             (trackEndPt2 (tag_particle self pcAxis hitVecs spacePointVec))).
Proof.
  intros Hl Hn H0 Ht. unfold tag_particle.
  rewrite (timing_filter_level self hitVecs Hl).
  rewrite classify_projected by (reflexivity || assumption).
  cbv zeta. cbn [state trackEndPt1 trackEndPt2 make_tag fCosmicScore fCosmicType].
  split.
  - apply boundary_tag_level2. discriminate.
  - intros H. rewrite boundary_tag_rules. unfold boundary_rules. rewrite H.
    split; reflexivity.
Qed.

Lemma C4_rule1_witness :
  isCosmic (state (tag_particle detector crossing_axis [[in_time_hit]] crossing_points))
  = 2%Z
  <-> rule1 detector
        (trackEndPt1 (tag_particle detector crossing_axis [[in_time_hit]] crossing_points))
        (trackEndPt2 (tag_particle detector crossing_axis [[in_time_hit]] crossing_points))
      = true.
Proof.
  apply (C4_rule1_fires_on_exit_of_start detector crossing_axis [[in_time_hit]]
           crossing_points).
  - evaluate. reflexivity.
  - discriminate.
  - cbv [crossing_axis x_axis getEigenValues array3]. lra.
  - apply transRMS_x_axis.
Defined.

(** The cross terms look at the exit flag of the start point only: with the
    start near a z face and the end near an x face and a z face rule 1 does
    not fire, and rule 2 gives Geometry_ZZ; with the two points exchanged it
    fires. *)
Example rule1_is_not_symmetric :
  boundary_tag detector (TVector3.mk 128 0 2) (TVector3.mk 2 0 1035) initial
  = mkTagState 3 kGeometry_ZZ
  /\ boundary_tag detector (TVector3.mk 2 0 1035) (TVector3.mk 128 0 2) initial
     = mkTagState 2 kGeometry_XZ.
Proof. split; evaluate; reflexivity. Qed.

(** Both end points within the x margin of opposite x faces, no other
    proximity: Geometry_XX with score 1.0. *)
Example opposite_x_faces :
  fCosmicType (make_tag (tag_particle detector crossing_axis [[in_time_hit]] crossing_points))
  = kGeometry_XX
  /\ fCosmicScore (make_tag (tag_particle detector crossing_axis [[in_time_hit]] crossing_points))
     = 1.
Proof.
  unfold make_tag. cbn [fCosmicType fCosmicScore].
  rewrite crossing_points_untimed. split; reflexivity.
Qed.

(** ** The extremal space points *)

Section Extremes.

Context {A : Type}.
Variables (key : A -> R) (pos : A -> FVector3).

Lemma scan_min (best : R) (at_best : FVector3) (l : list A) :
  Exists (fun q => key q < best) l ->
  exists p, first_min key l p /\ scan key pos Rlt_b best at_best l = (key p, pos p).
Proof.
  intros H.
  destruct (scan_first_best key pos Rlt (Rlt_b) Rlt_b_iff Rlt_trans
              (fun a b c Hab Hcb => Rlt_le_trans a b c Hab (Rnot_lt_le c b Hcb))
              best at_best l H)
    as (l1 & p & l2 & -> & _ & H1 & H2 & Hs).
  exists p. split; [|exact Hs].
  exists l1, l2. repeat split; [exact H1|].
  intros q Hq. apply Rnot_lt_le. now apply H2.
Qed.

Lemma scan_max (best : R) (at_best : FVector3) (l : list A) :
  Exists (fun q => best < key q) l ->
  exists p, first_max key l p /\ scan key pos Rgt_b best at_best l = (key p, pos p).
Proof.
  intros H.
  destruct (scan_first_best key pos (fun a b => b < a) Rgt_b
              (fun a b => Rlt_b_iff b a)
              (fun a b c Hab Hbc => Rlt_trans c b a Hbc Hab)
              (fun a b c Hab Hcb => Rle_lt_trans c b a (Rnot_lt_le b c Hcb) Hab)
              best at_best l H)
    as (l1 & p & l2 & -> & _ & H1 & H2 & Hs).
  exists p. split; [|exact Hs].
  exists l1, l2. repeat split; [exact H1|].
  intros q Hq. apply Rnot_lt_le. now apply H2.
Qed.

Lemma first_min_In (l : list A) (p : A) : first_min key l p -> In p l.
Proof. intros (l1 & l2 & -> & _). apply in_elt. Qed.

Lemma first_max_In (l : list A) (p : A) : first_max key l p -> In p l.
Proof. intros (l1 & l2 & -> & _). apply in_elt. Qed.

Lemma first_min_le (l : list A) (p q : A) :
  first_min key l p -> In q l -> key p <= key q.
Proof.
  intros (l1 & l2 & -> & H1 & H2) Hq.
  apply in_app_or in Hq. destruct Hq as [Hq | [<- | Hq]].
  - left. now apply H1.
  - right. reflexivity.
  - now apply H2.
Qed.

Lemma first_max_ge (l : list A) (p q : A) :
  first_max key l p -> In q l -> key q <= key p.
Proof.
  intros (l1 & l2 & -> & H1 & H2) Hq.
  apply in_app_or in Hq. destruct Hq as [Hq | [<- | Hq]].
  - left. now apply H1.
  - right. reflexivity.
  - now apply H2.
Qed.

(** A list has one earliest minimum and one earliest maximum, as positions
    in the list. *)
Lemma first_min_unique (l1 l2 l1' l2' : list A) (p p' : A) :
  l1 ++ p :: l2 = l1' ++ p' :: l2' ->
  (forall q, In q l1 -> key p < key q) -> (forall q, In q l2 -> key p <= key q) ->
  (forall q, In q l1' -> key p' < key q) -> (forall q, In q l2' -> key p' <= key q) ->
  l1 = l1' /\ p = p' /\ l2 = l2'.
Proof.
  intros E H1 H2 H1' H2'.
  apply app_eq_app in E. destruct E as (l & [[E1 E2] | [E1 E2]]).
  - destruct l as [|a l]; cbn [app] in E2; injection E2 as Ea Eb.
    + rewrite app_nil_r in E1. now repeat split.
    + exfalso.
      assert (key p < key a).
      { apply H1. rewrite E1. apply in_or_app. right. now left. }
      assert (key p' <= key p) by (apply H2'; rewrite Eb; apply in_elt).
      rewrite Ea in *. lra.
  - destruct l as [|a l]; cbn [app] in E2; injection E2 as Ea Eb.
    + rewrite app_nil_r in E1. now repeat split.
    + exfalso.
      assert (key p' < key a).
      { apply H1'. rewrite E1. apply in_or_app. right. now left. }
      assert (key p <= key p') by (apply H2; rewrite Eb; apply in_elt).
      rewrite Ea in *. lra.
Qed.

Lemma first_max_unique (l1 l2 l1' l2' : list A) (p p' : A) :
  l1 ++ p :: l2 = l1' ++ p' :: l2' ->
  (forall q, In q l1 -> key q < key p) -> (forall q, In q l2 -> key q <= key p) ->
  (forall q, In q l1' -> key q < key p') -> (forall q, In q l2' -> key q <= key p') ->
  l1 = l1' /\ p = p' /\ l2 = l2'.
Proof.
  intros E H1 H2 H1' H2'.
  apply app_eq_app in E. destruct E as (l & [[E1 E2] | [E1 E2]]).
  - destruct l as [|a l]; cbn [app] in E2; injection E2 as Ea Eb.
    + rewrite app_nil_r in E1. now repeat split.
    + exfalso.
      assert (key a < key p).
      { apply H1. rewrite E1. apply in_or_app. right. now left. }
      assert (key p <= key p') by (apply H2'; rewrite Eb; apply in_elt).
      rewrite Ea in *. lra.
  - destruct l as [|a l]; cbn [app] in E2; injection E2 as Ea Eb.
    + rewrite app_nil_r in E1. now repeat split.
    + exfalso.
      assert (key a < key p').
      { apply H1'. rewrite E1. apply in_or_app. right. now left. }
      assert (key p' <= key p) by (apply H2; rewrite Eb; apply in_elt).
      rewrite Ea in *. lra.
Qed.

Lemma NoDup_map_eq (l : list A) (p q : A) :
  NoDup (map key l) -> In p l -> In q l -> key p = key q -> p = q.
Proof.
  induction l as [|a l IH]; cbn [map]; intros Hnd Hp Hq E; [contradiction|].
  inversion Hnd as [|? ? Ha Hl]; subst.
  destruct Hp as [<- | Hp], Hq as [<- | Hq].
  - reflexivity.
  - exfalso. apply Ha. rewrite E. now apply in_map.
  - exfalso. apply Ha. rewrite <- E. now apply in_map.
  - now apply IH.
Qed.

(** With distinct keys the earliest minimum does not depend on the order. *)
Lemma first_min_perm (l l' : list A) (p p' : A) :
  Permutation l l' -> NoDup (map key l) ->
  first_min key l p -> first_min key l' p' -> p = p'.
Proof.
  intros HP Hnd Hp Hp'.
  assert (Hin : In p l) by now apply first_min_In.
  assert (Hin' : In p' l).
  { apply Permutation_in with l'; [now symmetry | now apply first_min_In]. }
  apply (NoDup_map_eq l); try assumption.
  apply Rle_antisym.
  - now apply first_min_le with l.
  - apply first_min_le with l'; [assumption | now apply Permutation_in with l].
Qed.

Lemma first_max_perm (l l' : list A) (p p' : A) :
  Permutation l l' -> NoDup (map key l) ->
  first_max key l p -> first_max key l' p' -> p = p'.
Proof.
  intros HP Hnd Hp Hp'.
  assert (Hin : In p l) by now apply first_max_In.
  assert (Hin' : In p' l).
  { apply Permutation_in with l'; [now symmetry | now apply first_max_In]. }
  apply (NoDup_map_eq l); try assumption.
  apply Rle_antisym.
  - apply first_max_ge with l'; [assumption | now apply Permutation_in with l].
  - now apply first_max_ge with l.
Qed.

End Extremes.

Section Projected.

Variable self : CosmicPCAxisTagger.
Variable pcAxis : PCAxis.
Variable hitVecs : list (list Hit).

Hypothesis level0 : isCosmic (timing_filter self hitVecs initial) = 0%Z.
Hypothesis e0_pos : 0 < getEigenValues pcAxis 0%nat.
Hypothesis t_pos : 0 < transRMS pcAxis.

Let arc := arcLen (vertexPosition pcAxis) (vertexDirection pcAxis).
Let pos := fun p : SpacePoint => FVector3.of_reals (spacePointPos p).

Lemma projected_start (spacePointVec : list SpacePoint) :
  trackEndPt1 (tag_particle self pcAxis hitVecs spacePointVec)
  = snd (scan arc pos Rlt_b 9999 (axisStart pcAxis) spacePointVec).
Proof.
  unfold tag_particle. rewrite (timing_filter_level self hitVecs level0).
  destruct spacePointVec as [|p l] eqn:E.
  - rewrite classify_skipped by auto. reflexivity.
  - rewrite classify_projected by (reflexivity || assumption || discriminate).
    cbv zeta. cbn [trackEndPt1]. apply find_extent_start.
Qed.

Lemma projected_end (spacePointVec : list SpacePoint) :
  trackEndPt2 (tag_particle self pcAxis hitVecs spacePointVec)
  = snd (scan arc pos Rgt_b (-9999) (axisEnd pcAxis) spacePointVec).
Proof.
  unfold tag_particle. rewrite (timing_filter_level self hitVecs level0).
  destruct spacePointVec as [|p l] eqn:E.
  - rewrite classify_skipped by auto. reflexivity.
  - rewrite classify_projected by (reflexivity || assumption || discriminate).
    cbv zeta. cbn [trackEndPt2]. apply find_extent_end.
Qed.

Lemma start_is_first_min (spacePointVec : list SpacePoint) :
  Exists (fun p => arc p < 9999) spacePointVec ->
  exists p, first_min arc spacePointVec p
    /\ trackEndPt1 (tag_particle self pcAxis hitVecs spacePointVec) = spacePointPos p.
Proof.
  intros H. rewrite projected_start.
  destruct (scan_min arc pos 9999 (axisStart pcAxis) _ H) as (p & Hp & ->).
  now exists p.
Qed.

Lemma end_is_first_max (spacePointVec : list SpacePoint) :
  Exists (fun p => -9999 < arc p) spacePointVec ->
  exists p, first_max arc spacePointVec p
    /\ trackEndPt2 (tag_particle self pcAxis hitVecs spacePointVec) = spacePointPos p.
Proof.
  intros H. rewrite projected_end.
  destruct (scan_max arc pos (-9999) (axisEnd pcAxis) _ H) as (p & Hp & ->).
  now exists p.
Qed.

Lemma start_out_of_bound (spacePointVec : list SpacePoint) :
  Forall (fun p => 9999 <= arc p) spacePointVec ->
  trackEndPt1 (tag_particle self pcAxis hitVecs spacePointVec) = axisStart pcAxis.
Proof.
  intros H. rewrite projected_start.
  rewrite (scan_none arc pos Rlt Rlt_b Rlt_b_iff); [reflexivity|].
  eapply Forall_impl; [|exact H]. cbv beta. intros p Hp. lra.
Qed.

Lemma end_out_of_bound (spacePointVec : list SpacePoint) :
  Forall (fun p => arc p <= -9999) spacePointVec ->
  trackEndPt2 (tag_particle self pcAxis hitVecs spacePointVec) = axisEnd pcAxis.
Proof.
  intros H. rewrite projected_end.
  rewrite (scan_none arc pos (fun a b => b < a) Rgt_b
             (fun a b => Rlt_b_iff b a)); [reflexivity|].
  eapply Forall_impl; [|exact H]. cbv beta. intros p Hp. lra.
Qed.

End Projected.

(** C3. With cosmic-level 0 and positive dominant eigenvalue and transverse
    spread: when every space point has arc length at least 9999 the start
    end point is left at [mean - 3 sqrt(e0) direction], and when every space
    point has arc length at most -9999 the end end point is left at
    [mean + 3 sqrt(e0) direction]. *)
Theorem C3_bounds_of_the_search (self : CosmicPCAxisTagger)
  (pcAxis : PCAxis) (hitVecs : list (list Hit)) (spacePointVec : list SpacePoint) :
  isCosmic (timing_filter self hitVecs initial) = 0%Z ->
  0 < getEigenValues pcAxis 0%nat ->
  0 < transRMS pcAxis ->
  (Forall (fun p => 9999 <= arcLen (vertexPosition pcAxis) (vertexDirection pcAxis) p)
     spacePointVec ->
   trackEndPt1 (tag_particle self pcAxis hitVecs spacePointVec)
   = TVector3.sub (vertexPosition pcAxis)
       (TVector3.scale (3 * sqrt (getEigenValues pcAxis 0%nat)) (vertexDirection pcAxis)))
  /\ (Forall (fun p => arcLen (vertexPosition pcAxis) (vertexDirection pcAxis) p <= -9999)
        spacePointVec ->
      trackEndPt2 (tag_particle self pcAxis hitVecs spacePointVec)
      = TVector3.add (vertexPosition pcAxis)
          (TVector3.scale (3 * sqrt (getEigenValues pcAxis 0%nat)) (vertexDirection pcAxis))).
Proof.
  intros Hl H0 Ht. split; intros H.
  - rewrite <- axisStart_nonneg by lra. now apply start_out_of_bound.
  - rewrite <- axisEnd_nonneg by lra. now apply end_out_of_bound.
Qed.

Lemma C3_bounds_witness :
  trackEndPt1 (tag_particle detector (x_axis 1 0 1) [[in_time_hit]] [far_point])
  = TVector3.sub (vertexPosition (x_axis 1 0 1))
      (TVector3.scale (3 * sqrt (getEigenValues (x_axis 1 0 1) 0%nat))
         (vertexDirection (x_axis 1 0 1))).
Proof.
  apply (C3_bounds_of_the_search detector (x_axis 1 0 1) [[in_time_hit]] [far_point]).
  - evaluate. reflexivity.
  - cbv [x_axis getEigenValues array3]. lra.
  - apply transRMS_x_axis.
  - constructor; [|constructor]. evaluate. lra.
Defined.

(** What the search finds inside its bounds. With cosmic-level 0 and
    positive dominant eigenvalue and transverse spread: if some space point
    has arc length below 9999, the start end point is the earliest space
    point of minimal arc length; if some space point has arc length above
    -9999, the end end point is the earliest space point of maximal arc
    length. When the arc lengths are pairwise distinct, either end point is
    the same for every order in which the space points are supplied. *)
Theorem end_points_are_extremal_within_bounds (self : CosmicPCAxisTagger)
  (pcAxis : PCAxis) (hitVecs : list (list Hit)) (spacePointVec : list SpacePoint) :
  isCosmic (timing_filter self hitVecs initial) = 0%Z ->
  0 < getEigenValues pcAxis 0%nat ->
  0 < transRMS pcAxis ->
  (Exists (fun p => arcLen (vertexPosition pcAxis) (vertexDirection pcAxis) p < 9999)
     spacePointVec ->
   (exists p,
      first_min (arcLen (vertexPosition pcAxis) (vertexDirection pcAxis)) spacePointVec p
      /\ trackEndPt1 (tag_particle self pcAxis hitVecs spacePointVec) = spacePointPos p)
   /\ (forall reordered,
         Permutation spacePointVec reordered ->
         NoDup (map (arcLen (vertexPosition pcAxis) (vertexDirection pcAxis)) spacePointVec) ->
         trackEndPt1 (tag_particle self pcAxis hitVecs reordered)
         = trackEndPt1 (tag_particle self pcAxis hitVecs spacePointVec)))
  /\ (Exists (fun p => -9999 < arcLen (vertexPosition pcAxis) (vertexDirection pcAxis) p)
        spacePointVec ->
      (exists p,
         first_max (arcLen (vertexPosition pcAxis) (vertexDirection pcAxis)) spacePointVec p
         /\ trackEndPt2 (tag_particle self pcAxis hitVecs spacePointVec) = spacePointPos p)
      /\ (forall reordered,
            Permutation spacePointVec reordered ->
            NoDup (map (arcLen (vertexPosition pcAxis) (vertexDirection pcAxis)) spacePointVec) ->
            trackEndPt2 (tag_particle self pcAxis hitVecs reordered)
            = trackEndPt2 (tag_particle self pcAxis hitVecs spacePointVec))).
Proof.
  intros Hl H0 Ht. split; intros HE.
  - destruct (start_is_first_min self pcAxis hitVecs Hl H0 Ht _ HE) as (p & Hp & Hs).
    split; [now exists p|].
    intros reordered HP Hnd.
    assert (HE' : Exists (fun p => arcLen (vertexPosition pcAxis) (vertexDirection pcAxis) p < 9999)
                    reordered).
    { apply Exists_exists in HE. destruct HE as (q & Hq & Hlt).
      apply Exists_exists. exists q. split; [now apply Permutation_in with spacePointVec | exact Hlt]. }
    destruct (start_is_first_min self pcAxis hitVecs Hl H0 Ht _ HE') as (p' & Hp' & Hs').
    rewrite Hs, Hs'. do 2 f_equal. symmetry.
    now apply (first_min_perm
                 (arcLen (vertexPosition pcAxis) (vertexDirection pcAxis))
                 spacePointVec reordered).
  - destruct (end_is_first_max self pcAxis hitVecs Hl H0 Ht _ HE) as (p & Hp & Hs).
    split; [now exists p|].
    intros reordered HP Hnd.
    assert (HE' : Exists (fun p => -9999 < arcLen (vertexPosition pcAxis) (vertexDirection pcAxis) p)
                    reordered).
    { apply Exists_exists in HE. destruct HE as (q & Hq & Hlt).
      apply Exists_exists. exists q. split; [now apply Permutation_in with spacePointVec | exact Hlt]. }
    destruct (end_is_first_max self pcAxis hitVecs Hl H0 Ht _ HE') as (p' & Hp' & Hs').
    rewrite Hs, Hs'. do 2 f_equal. symmetry.
    now apply (first_max_perm
                 (arcLen (vertexPosition pcAxis) (vertexDirection pcAxis))
                 spacePointVec reordered).
Qed.

Example inner_points_start_is_extremal :
  exists p,
    first_min (arcLen (vertexPosition inner_axis) (vertexDirection inner_axis)) inner_points p
    /\ trackEndPt1 (tag_particle detector inner_axis [[in_time_hit]] inner_points)
       = spacePointPos p.
Proof.
  apply (end_points_are_extremal_within_bounds detector inner_axis [[in_time_hit]]
           inner_points).
  - evaluate. reflexivity.
  - cbv [inner_axis x_axis getEigenValues array3]. lra.
  - apply transRMS_x_axis.
  - apply Exists_cons_hd. evaluate. lra.
Qed.

(** The arc lengths of [inner_points] are -3, -10, 7 and 0: the end points
    are the points at -10 and 7, also when the points come sorted. *)
Example inner_points_extremes :
  map (arcLen (vertexPosition inner_axis) (vertexDirection inner_axis)) inner_points
  = [(125 - 128) * 1 + (0 - 0) * 0 + (500 - 500) * 0;
     (118 - 128) * 1 + (0 - 0) * 0 + (500 - 500) * 0;
     (135 - 128) * 1 + (0 - 0) * 0 + (500 - 500) * 0;
     (128 - 128) * 1 + (0 - 0) * 0 + (500 - 500) * 0]
  /\ trackEndPt1 (tag_particle detector inner_axis [[in_time_hit]] inner_points)
     = TVector3.mk 118 0 500
  /\ trackEndPt2 (tag_particle detector inner_axis [[in_time_hit]] inner_points)
     = TVector3.mk 135 0 500
  /\ trackEndPt1 (tag_particle detector inner_axis [[in_time_hit]]
                    [point 118 0 500; point 125 0 500; point 128 0 500; point 135 0 500])
     = TVector3.mk 118 0 500
  /\ trackEndPt2 (tag_particle detector inner_axis [[in_time_hit]]
                    [point 118 0 500; point 125 0 500; point 128 0 500; point 135 0 500])
     = TVector3.mk 135 0 500.
Proof. repeat split; evaluate; reflexivity. Qed.

(** C2. The start end point is to be the space point of minimal arc
    length and the end end point the one of maximal arc length, as the
    comment of lines 249-254 has it. The search starts from the finite
    bounds 9999 and -9999: for the object of axis [x_axis 1 0 1] with
    in-time hits and the single space point [far_point], at arc length
    10000, every condition of the search holds and [far_point] is the space
    point of minimal and of maximal arc length, yet the start end point
    stays the point of the axis at -3 while the end end point is
    [far_point], and the object is tagged Geometry_XX on that pair. *)
Theorem C2_far_point_is_not_the_start :
  isCosmic (timing_filter detector [[in_time_hit]] initial) = 0%Z
  /\ 0 < getEigenValues (x_axis 1 0 1) 0%nat
  /\ 0 < transRMS (x_axis 1 0 1)
  /\ arcLen (vertexPosition (x_axis 1 0 1)) (vertexDirection (x_axis 1 0 1)) far_point
     = 10000
  /\ first_min (arcLen (vertexPosition (x_axis 1 0 1)) (vertexDirection (x_axis 1 0 1)))
       [far_point] far_point
  /\ first_max (arcLen (vertexPosition (x_axis 1 0 1)) (vertexDirection (x_axis 1 0 1)))
       [far_point] far_point
  /\ trackEndPt1 (tag_particle detector (x_axis 1 0 1) [[in_time_hit]] [far_point])
     = TVector3.mk (0 - 3 * 1 * 1) (0 - 3 * 1 * 0) (500 - 3 * 1 * 0)
  /\ trackEndPt1 (tag_particle detector (x_axis 1 0 1) [[in_time_hit]] [far_point])
     <> spacePointPos far_point
  /\ trackEndPt2 (tag_particle detector (x_axis 1 0 1) [[in_time_hit]] [far_point])
     = spacePointPos far_point
  /\ state (tag_particle detector (x_axis 1 0 1) [[in_time_hit]] [far_point])
     = mkTagState 2 kGeometry_XX.
Proof.
  assert (Ht := transRMS_x_axis 1 0 1).
  assert (Hs : trackEndPt1 (tag_particle detector (x_axis 1 0 1) [[in_time_hit]] [far_point])
               = TVector3.mk (0 - 3 * 1 * 1) (0 - 3 * 1 * 0) (500 - 3 * 1 * 0)).
  { evaluate. reflexivity. }
  repeat apply conj.
  - evaluate. reflexivity.
  - cbv [x_axis getEigenValues array3]. lra.
  - exact Ht.
  - evaluate. lra.
  - exists [], []. repeat split; intros q [].
  - exists [], []. repeat split; intros q [].
  - exact Hs.
  - rewrite Hs. evaluate. intros E. injection E as E _ _. lra.
  - evaluate. reflexivity.
  - evaluate. reflexivity.
Qed.

(** ** The event *)

Section Event.

Variable self : CosmicPCAxisTagger.
Variable evt : art.Event.

Lemma axes_of_at (i : nat) (axes : list PCAxis) :
  art.at_ (art.pfPartToPCAxisAssns evt) i = Ok axes -> axes_of evt i = axes.
Proof. intros H. unfold axes_of. now rewrite H. Qed.

(** What one turn of the loop does when it returns. *)
Lemma tag_one_inv (i : nat) (out out' : Outputs) :
  tag_one self evt i out = Ok out' ->
  (axes_of evt i = [] /\ has_axis evt i = false /\ out' = out)
  \/ (has_axis evt i = true
      /\ exists tag, tag_of self evt i tag
           /\ out' = emplace out i (order_axes (axes_of evt i)) tag).
Proof.
  unfold tag_one, has_axis.
  destruct (art.at_ (art.pfPartToPCAxisAssns evt) i) as [axes|e] eqn:Eaxes;
    cbn [bind]; [|discriminate].
  rewrite (axes_of_at i axes Eaxes).
  destruct axes as [|first rest].
  - intros H. inversion H. left. repeat split; reflexivity.
  - cbv zeta.
    destruct (art.at_ (art.clusterAssns evt) i) as [clusterVec|e] eqn:Ecl;
      cbn [bind]; [|discriminate].
    destruct (scan_clusters self (art.clusterHitAssns evt) clusterVec initial)
      as [st|e] eqn:Escan; cbn [bind]; [|discriminate].
    destruct (art.at_ (art.spacePointAssnVec evt) i) as [spacePointVec|e] eqn:Esp;
      cbn [bind]; [|discriminate].
    intros H. inversion H. right. split; [reflexivity|].
    destruct (scan_clusters_found self _ _ _ _ Escan) as (hitVecs & HF & ->).
    eexists. split; [|reflexivity].
    exists first, rest, clusterVec, hitVecs, spacePointVec.
    repeat split; assumption || reflexivity.
Qed.

Lemma emitted_step (done : list nat) (i : nat) (out out' : Outputs) :
  emitted self evt done out ->
  tag_one self evt i out = Ok out' ->
  emitted self evt (done ++ [i]) out'.
Proof.
  intros (Hfst & Hsnd & Htags & Haxes) H.
  apply tag_one_inv in H. unfold emitted. rewrite filter_app. cbn [filter].
  destruct H as [(_ & Hno & ->) | (Hyes & tag & Htag & ->)].
  - rewrite Hno, app_nil_r. repeat split; assumption.
  - rewrite Hyes. unfold emplace.
    cbn [cosmicTagPFParticleVector assnOutCosmicTagPFParticle assnOutCosmicTagPCAxis].
    rewrite !map_app, flat_map_app, !length_app. cbn [map fst snd length flat_map].
    replace (length (cosmicTagPFParticleVector out) + 1 - 1)%nat
      with (length (cosmicTagPFParticleVector out)) by lia.
    rewrite Nat.add_1_r, seq_S, app_nil_r. cbn [Nat.add].
    repeat split.
    + now rewrite Hfst.
    + now rewrite Hsnd.
    + apply Forall2_app; [exact Htags|]. constructor; [exact Htag | constructor].
    + now rewrite Haxes.
Qed.

Lemma emitted_all (indices done : list nat) (out out' : Outputs) :
  emitted self evt done out ->
  tag_all self evt indices out = Ok out' ->
  emitted self evt (done ++ indices) out'.
Proof.
  revert done out. induction indices as [|i rest IH]; intros done out Hinv; cbn [tag_all].
  - intros H. inversion H. subst. now rewrite app_nil_r.
  - destruct (tag_one self evt i out) as [out1|e] eqn:E; cbn [bind]; [|discriminate].
    intros H. replace (done ++ i :: rest) with ((done ++ [i]) ++ rest)
      by now rewrite <- app_assoc.
    apply IH with out1; [|exact H]. now apply emitted_step with out.
Qed.

Lemma emitted_nothing : emitted self evt [] no_output.
Proof. repeat split. constructor. Qed.

Lemma tag_one_total (i : nat) (out : Outputs) (axes : list PCAxis) :
  art.at_ (art.pfPartToPCAxisAssns evt) i = Ok axes ->
  (axes <> [] ->
   exists clusterVec spacePointVec,
     art.at_ (art.clusterAssns evt) i = Ok clusterVec
     /\ art.at_ (art.spacePointAssnVec evt) i = Ok spacePointVec
     /\ Forall (fun c => exists hitVec,
                  hits_of (art.clusterHitAssns evt) c = Ok hitVec) clusterVec) ->
  exists out', tag_one self evt i out = Ok out'.
Proof.
  intros Haxes H. unfold tag_one. rewrite Haxes. cbn [bind].
  destruct axes as [|first rest]; [now exists out|].
  destruct H as (clusterVec & spacePointVec & Hcl & Hsp & Hhits); [discriminate|].
  cbv zeta. rewrite Hcl. cbn [bind].
  destruct (scan_clusters_total self _ _ initial Hhits) as (st & ->). cbn [bind].
  rewrite Hsp. cbn [bind]. eexists. reflexivity.
Qed.

Lemma tag_all_total (indices : list nat) (n : nat) (out : Outputs) :
  lookups_succeed evt n ->
  Forall (fun i => (i < n)%nat) indices ->
  exists out', tag_all self evt indices out = Ok out'.
Proof.
  intros Hok H. revert out. induction H as [|i rest Hi _ IH]; intros out.
  - now exists out.
  - cbn [tag_all]. destruct (Hok i Hi) as (axes & Haxes & Hrest).
    destruct (tag_one_total i out axes Haxes Hrest) as (out1 & ->). cbn [bind].
    apply IH.
Qed.

(** Whenever [produce] returns, it returns nothing at all or what the loop
    emitted for all the particles. *)
Lemma produce_inv (out : Outputs) :
  produce self evt = Ok out ->
  out = no_output
  \/ exists pfParticles,
       art.pfParticleHandle evt = Some pfParticles
       /\ emitted self evt (seq 0 (length pfParticles)) out.
Proof.
  unfold produce. destruct (art.pfParticleHandle evt) as [pfParticles|].
  - destruct (_ || _).
    + intros H. inversion H. now left.
    + intros H. right. exists pfParticles. split; [reflexivity|].
      now apply (emitted_all _ [] no_output out emitted_nothing).
  - intros H. inversion H. now left.
Qed.

Lemma produce_tags (out : Outputs) (tag : CosmicTag) :
  produce self evt = Ok out ->
  In tag (cosmicTagPFParticleVector out) ->
  exists i, tag_of self evt i tag.
Proof.
  intros H Hin. destruct (produce_inv out H) as [-> | (pfs & _ & _ & _ & HF & _)].
  - destruct Hin.
  - clear H. induction HF as [|entry t entries tags Ht _ IH]; [destruct Hin|].
    destruct Hin as [<- | Hin]; [now exists (fst entry) | now apply IH].
Qed.

End Event.

Example sample_event_output : produce detector sample_event = Ok sample_output.
Proof. evaluate. reflexivity. Qed.

(** ** Missing collections *)

(** C6, as amended. For every event in which the collection of PFParticles,
    the collection of PCAxes or the collection of clusters is absent, the
    three products (tags, particle-to-tag and axis-to-tag associations) are
    put empty and no exception is raised. *)
Theorem C6_missing_collection_gives_empty_products (self : CosmicPCAxisTagger)
  (evt : art.Event) :
  art.pfParticleHandle evt = None
  \/ art.pcaxisHandle evt = None
  \/ art.clusterHandle evt = None ->
  produce self evt = Ok (mkOutputs [] [] []).
Proof.
  intros H. unfold produce.
  destruct (art.pfParticleHandle evt) as [pfParticles|]; [|reflexivity].
  destruct H as [H | [H | H]]; [discriminate | |]; rewrite H; cbn [art.isValid negb orb].
  - reflexivity.
  - now rewrite orb_true_r.
Qed.

Lemma C6_missing_collection_witness :
  produce detector event_without_axes = Ok (mkOutputs [] [] []).
Proof.
  apply (C6_missing_collection_gives_empty_products detector event_without_axes).
  right. left. reflexivity.
Defined.

(** Without the association of space points, or without the association of
    axes, the collections being there, the lookup for the first particle
    raises and nothing is put. With the association of space points there
    but empty, two tags are put. *)
Lemma C6_missing_association_raises :
  art.spacePointAssnVec event_without_space_points = None
  /\ produce detector event_without_space_points = Raise ProductNotFound
  /\ art.pfPartToPCAxisAssns event_without_axis_assns = None
  /\ produce detector event_without_axis_assns = Raise ProductNotFound
  /\ produce detector event_with_no_space_point
     = Ok (mkOutputs
             [mkCosmicTag
                [Num (128 - 3 * 42 * 1); Num (0 - 3 * 42 * 0); Num (500 - 3 * 42 * 0)]
                [Num (128 + 3 * 42 * 1); Num (0 + 3 * 42 * 0); Num (500 + 3 * 42 * 0)]
                0 kNotTagged;
              mkCosmicTag
                [Num (128 - 3 * 10 * 1); Num (0 - 3 * 10 * 0); Num (500 - 3 * 10 * 0)]
                [Num (128 + 3 * 10 * 1); Num (0 + 3 * 10 * 0); Num (500 + 3 * 10 * 0)]
                1 kOutsideDrift_Partial]
             (assnOutCosmicTagPFParticle sample_output)
             (assnOutCosmicTagPCAxis sample_output)).
Proof. repeat split; evaluate; reflexivity. Qed.

(** ** The score *)

(** C8. For every tag that [produce] emits the score is the score of its
    kind: 0.0 for NotTagged, 0.4 for Geometry_ZZ, 0.5 for Geometry_X,
    Geometry_Y and Geometry_Z, 1.0 for OutsideDrift_Partial and the other
    Geometry kinds; it is one of 0.0, 0.4, 0.5 and 1.0. *)
Theorem C8_score_is_the_score_of_the_kind (self : CosmicPCAxisTagger)
  (evt : art.Event) (out : Outputs) (tag : CosmicTag) :
  produce self evt = Ok out ->
  In tag (cosmicTagPFParticleVector out) ->
  fCosmicScore tag = score_of_kind (fCosmicType tag)
  /\ (fCosmicScore tag = 0 \/ fCosmicScore tag = 0.4
      \/ fCosmicScore tag = 0.5 \/ fCosmicScore tag = 1).
Proof.
  intros H Hin.
  destruct (produce_tags self evt out tag H Hin)
    as (i & first & rest & clusterVec & hitVecs & spacePointVec & _ & _ & _ & _ & ->).
  assert (Hs := classify_score self (hd first (order_axes (first :: rest)))
                  (timing_filter self hitVecs initial) spacePointVec
                  (timing_filter_state self hitVecs)).
  cbv zeta in Hs. unfold tag_particle. split; [exact Hs|].
  rewrite Hs. destruct (fCosmicType _); cbn [score_of_kind]; auto.
Qed.

Lemma C8_score_witness :
  fCosmicScore
    (mkCosmicTag [Num 2; Num 0; Num 500] [Num 254; Num 0; Num 500] 1 kGeometry_XX)
  = score_of_kind
      (fCosmicType
         (mkCosmicTag [Num 2; Num 0; Num 500] [Num 254; Num 0; Num 500] 1
            kGeometry_XX)).
Proof.
  apply (C8_score_is_the_score_of_the_kind detector sample_event sample_output).
  - exact sample_event_output.
  - left. reflexivity.
Defined.

(** ** One tag per particle with an axis *)

Lemma axis_entries_perm (evt : art.Event) (entry : nat * nat) :
  Permutation (map fst (axis_entries evt entry)) (axes_of evt (fst entry))
  /\ Forall (fun e => snd e = snd entry) (axis_entries evt entry).
Proof.
  unfold axis_entries. split.
  - rewrite map_map. cbn [fst]. rewrite map_id. apply order_axes_perm.
  - apply Forall_forall. intros e He. apply in_map_iff in He.
    destruct He as (axis & <- & _). reflexivity.
Qed.

(** C9. When the collections are there and the lookups succeed, [produce]
    returns; the particle-to-tag table lists, in the order of the particle
    collection, exactly the particles with at least one axis, the k-th of
    them with the k-th tag, which is the tag of that particle; a particle
    without axis has no entry; the axis-to-tag table holds, for each entry of
    the particle table in turn, one entry per axis associated to the
    particle, canonical or not, with the same tag. *)
Theorem C9_one_tag_per_particle_with_axis (self : CosmicPCAxisTagger)
  (evt : art.Event) (pfParticles : list PFParticle) :
  art.pfParticleHandle evt = Some pfParticles ->
  art.pcaxisHandle evt <> None ->
  art.clusterHandle evt <> None ->
  lookups_succeed evt (length pfParticles) ->
  exists out,
    produce self evt = Ok out
    /\ map fst (assnOutCosmicTagPFParticle out)
       = filter (has_axis evt) (seq 0 (length pfParticles))
    /\ map snd (assnOutCosmicTagPFParticle out)
       = seq 0 (length (cosmicTagPFParticleVector out))
    /\ length (cosmicTagPFParticleVector out)
       = length (filter (has_axis evt) (seq 0 (length pfParticles)))
    /\ Forall2 (fun entry tag => tag_of self evt (fst entry) tag)
         (assnOutCosmicTagPFParticle out) (cosmicTagPFParticleVector out)
    /\ (forall i, axes_of evt i = [] ->
          ~ In i (map fst (assnOutCosmicTagPFParticle out)))
    /\ assnOutCosmicTagPCAxis out
       = flat_map (axis_entries evt) (assnOutCosmicTagPFParticle out)
    /\ (forall entry, In entry (assnOutCosmicTagPFParticle out) ->
          Permutation (map fst (axis_entries evt entry)) (axes_of evt (fst entry))
          /\ Forall (fun e => snd e = snd entry) (axis_entries evt entry)).
Proof.
  intros Hpf Hax Hcl Hok.
  assert (Hret : exists out, produce self evt = Ok out).
  { unfold produce. rewrite Hpf.
    destruct (art.pcaxisHandle evt); [|contradiction].
    destruct (art.clusterHandle evt); [|contradiction].
    cbn [art.isValid negb orb].
    apply tag_all_total with (length pfParticles); [exact Hok|].
    apply Forall_forall. intros i Hi. apply in_seq in Hi. lia. }
  destruct Hret as (out & Hout). exists out. split; [exact Hout|].
  assert (Hinv : emitted self evt (seq 0 (length pfParticles)) out).
  { unfold produce in Hout. rewrite Hpf in Hout.
    destruct (art.pcaxisHandle evt); [|contradiction].
    destruct (art.clusterHandle evt); [|contradiction].
    cbn [art.isValid negb orb] in Hout.
    now apply (emitted_all self evt _ [] no_output out (emitted_nothing self evt)). }
  destruct Hinv as (Hfst & Hsnd & Htags & Haxes).
  repeat split; try assumption.
  - rewrite <- Hfst, length_map. symmetry. now apply Forall2_length with (1 := Htags).
  - intros i Hi Hin. rewrite Hfst in Hin. apply filter_In in Hin.
    destruct Hin as [_ Hin]. unfold has_axis in Hin. rewrite Hi in Hin. discriminate.
  - apply axis_entries_perm.
  - apply axis_entries_perm.
Qed.

Lemma sample_event_lookups : lookups_succeed sample_event 3.
Proof.
  intros i Hi.
  destruct i as [|[|[|i]]]; [| | |lia]; eexists; (split; [reflexivity|]); intros Hne.
  - exists [mkCluster 0], crossing_points. repeat split.
    constructor; [|constructor]. now exists [in_time_hit].
  - now contradiction Hne.
  - exists [mkCluster 1], inner_points. repeat split.
    constructor; [|constructor]. now exists [in_time_hit; early_hit].
Qed.

Lemma C9_one_tag_witness :
  exists out,
    produce detector sample_event = Ok out
    /\ map fst (assnOutCosmicTagPFParticle out) = [0%nat; 2%nat].
Proof.
  destruct (C9_one_tag_per_particle_with_axis detector sample_event
              [mkPFParticle 0; mkPFParticle 1; mkPFParticle 2]
              eq_refl
              (fun H => eq_ind (art.pcaxisHandle sample_event)
                          (fun h => match h with Some _ => True | None => False end)
                          I None H)
              (fun H => eq_ind (art.clusterHandle sample_event)
                          (fun h => match h with Some _ => True | None => False end)
                          I None H)
              sample_event_lookups)
    as (out & Hout & Hfst & _).
  exists out. split; [exact Hout | exact Hfst].
Defined.

(** The particle without axis of [sample_event] has no tag and no entry. *)
Example sample_event_tables :
  length (cosmicTagPFParticleVector sample_output) = 2%nat
  /\ assnOutCosmicTagPFParticle sample_output = [(0%nat, 0%nat); (2%nat, 1%nat)]
  /\ map (fun e => (getID (fst e), snd e)) (assnOutCosmicTagPCAxis sample_output)
     = [(1%nat, 0%nat); (3%nat, 1%nat); (5%nat, 1%nat)].
Proof. repeat split. Qed.

(** ** The rest of the decision table *)

Section DecisionTable.

Variable self : CosmicPCAxisTagger.

(** Case analysis on the six proximity flags of two end points. *)
Ltac by_flags p1 p2 :=
  unfold boundary_tag, rule1, rule1_kind, any_at, exit_at, nearX_at, nearY_at, nearZ_at;
  cbn [FVector3.X FVector3.Y FVector3.Z FVector3.of_reals];
  destruct (nearX self (TVector3.X p1)), (nearX self (TVector3.X p2)),
    (nearY self (TVector3.Y p1)), (nearY self (TVector3.Y p2)),
    (nearZ self (TVector3.Z p1)), (nearZ self (TVector3.Z p2));
  cbn [andb orb xorb negb isCosmic tag_id initial].

(** X1. Entered with level 0, the decision gives level 3 exactly when the
    first end point is near neither an x nor a y face and both end points
    are near a z face; the kind is then Geometry_ZZ and the score 0.4. The
    second end point may be near an x or y face as well. *)
Theorem rule2_needs_no_exit_of_start (p1 p2 : TVector3) :
  (isCosmic (boundary_tag self p1 p2 initial) = 3%Z
   <-> exit_at self p1 = false /\ nearZ_at self p1 = true /\ nearZ_at self p2 = true)
  /\ (isCosmic (boundary_tag self p1 p2 initial) = 3%Z ->
      tag_id (boundary_tag self p1 p2 initial) = kGeometry_ZZ
      /\ cosmicScore (isCosmic (boundary_tag self p1 p2 initial)) = 0.4).
Proof.
  by_flags p1 p2; (split; [split|]); intros H; try discriminate;
    try (destruct H as (H1 & H2 & H3); discriminate);
    repeat split; reflexivity.
Qed.

(** X2. Entered with level 0, the decision gives level 4 exactly when one
    end point only has a flag set and, if it is the first, that end point
    is not near both an x or y face and a z face; the kind is then
    Geometry_X, Geometry_Y or Geometry_Z by first match on the flags of
    either end, never the incoming kind, and the score is 0.5. *)
Theorem rule3_one_end_only (p1 p2 : TVector3) :
  (isCosmic (boundary_tag self p1 p2 initial) = 4%Z
   <-> xorb (any_at self p1) (any_at self p2) = true
       /\ exit_at self p1 && nearZ_at self p1 = false)
  /\ (isCosmic (boundary_tag self p1 p2 initial) = 4%Z ->
      tag_id (boundary_tag self p1 p2 initial)
      = (if nearX_at self p1 || nearX_at self p2 then kGeometry_X
         else if nearY_at self p1 || nearY_at self p2 then kGeometry_Y
         else kGeometry_Z)
      /\ tag_id (boundary_tag self p1 p2 initial) <> kNotTagged
      /\ cosmicScore (isCosmic (boundary_tag self p1 p2 initial)) = 0.5).
Proof.
  by_flags p1 p2; (split; [split|]); intros H; try discriminate;
    try (destruct H as (H1 & H2); discriminate);
    repeat split; try reflexivity; discriminate.
Qed.

(** X3. Entered with level 0, the decision leaves the object untagged in
    two cases only: no flag is set at either end point; or the first end
    point is near a z face and no x or y face while the second is near an x
    or y face and no z face. *)
Theorem untagged_cases (p1 p2 : TVector3) :
  boundary_tag self p1 p2 initial = initial
  <-> (any_at self p1 = false /\ any_at self p2 = false)
      \/ (exit_at self p1 = false /\ nearZ_at self p1 = true
          /\ exit_at self p2 = true /\ nearZ_at self p2 = false).
Proof.
  by_flags p1 p2; split; intros H; try discriminate; try reflexivity;
    try (left; split; reflexivity);
    try (right; repeat split; reflexivity);
    try (destruct H as [(H1 & H2) | (H1 & H2 & H3 & H4)]; discriminate).
Qed.

(** X4. When level 2 is assigned the kind names faces that are near: XX
    and YY both end points near that pair of faces, XY, XZ and YZ a flag of
    either letter at some end point, and YZ no x flag at all. *)
Theorem level2_kind_names_near_faces (p1 p2 : TVector3) :
  isCosmic (boundary_tag self p1 p2 initial) = 2%Z ->
  match tag_id (boundary_tag self p1 p2 initial) with
  | kGeometry_XX => nearX_at self p1 = true /\ nearX_at self p2 = true
  | kGeometry_YY => nearY_at self p1 = true /\ nearY_at self p2 = true
  | kGeometry_XY =>
      nearX_at self p1 || nearX_at self p2 = true
      /\ nearY_at self p1 || nearY_at self p2 = true
  | kGeometry_XZ =>
      nearX_at self p1 || nearX_at self p2 = true
      /\ nearZ_at self p1 || nearZ_at self p2 = true
  | kGeometry_YZ =>
      nearY_at self p1 || nearY_at self p2 = true
      /\ nearZ_at self p1 || nearZ_at self p2 = true
      /\ nearX_at self p1 || nearX_at self p2 = false
  | _ => False
  end.
Proof.
  by_flags p1 p2; intros H; try discriminate; repeat split.
Qed.

(** X5. The decision does not depend on which end point comes first when
    the two agree on being near an x or y face. *)
Theorem decision_symmetric_when_exits_agree (p1 p2 : TVector3) (st : TagState) :
  exit_at self p1 = exit_at self p2 ->
  boundary_tag self p1 p2 st = boundary_tag self p2 p1 st.
Proof.
  by_flags p1 p2; intros H; try discriminate; reflexivity.
Qed.

End DecisionTable.

(** ** Contained objects and in-time hits *)

Section Contained.

Variable self : CosmicPCAxisTagger.

Lemma fiducial_no_flag (p : TVector3) : fiducial self p -> any_at self p = false.
Proof.
  intros ((Hx1 & Hx2) & (Hy1 & Hy2) & (Hz1 & Hz2)).
  unfold any_at, nearX_at, nearY_at, nearZ_at, nearX, nearY, nearZ.
  cbn [FVector3.X FVector3.Y FVector3.Z FVector3.of_reals].
  unfold fp_sub, fp_add, fp_map2, fp_lt_b.
  rewrite !Rlt_b_false by lra. reflexivity.
Qed.

Lemma no_flag_fiducial (p : TVector3) : any_at self p = false -> fiducial self p.
Proof.
  unfold any_at, nearX_at, nearY_at, nearZ_at, nearX, nearY, nearZ.
  cbn [FVector3.X FVector3.Y FVector3.Z FVector3.of_reals].
  unfold fp_sub, fp_add, fp_map2, fp_lt_b.
  rewrite !orb_false_iff, !Rlt_b_false_iff. unfold fiducial. lra.
Qed.

Lemma boundary_tag_no_flag (p1 p2 : FVector3) (st : TagState) :
  any_at self p1 = false -> any_at self p2 = false ->
  boundary_tag self p1 p2 st = st.
Proof.
  unfold any_at, nearX_at, nearY_at, nearZ_at, boundary_tag.
  destruct (nearX self (FVector3.X p1)), (nearX self (FVector3.X p2)),
    (nearY self (FVector3.Y p1)), (nearY self (FVector3.Y p2)),
    (nearZ self (FVector3.Z p1)), (nearZ self (FVector3.Z p2));
    cbn [orb]; intros H1 H2; try discriminate; reflexivity.
Qed.

Lemma out_of_time_false_iff (hit : Hit) :
  out_of_time self hit = false <-> in_window self hit.
Proof.
  unfold out_of_time, Rgt_b, in_window.
  rewrite orb_false_iff, !Rlt_b_false_iff. tauto.
Qed.

(** X6. An object with level 0 after the timing scan, all of whose space
    points lie in the closed box that the margins leave inside the
    detector and have arc lengths strictly between -9999 and 9999, is not
    tagged: level 0, NotTagged, score 0.0, whatever its axis. *)
Theorem contained_object_is_untagged (pcAxis : PCAxis)
  (hitVecs : list (list Hit)) (spacePointVec : list SpacePoint) :
  isCosmic (timing_filter self hitVecs initial) = 0%Z ->
  Forall (fun p =>
            -9999 < arcLen (vertexPosition pcAxis) (vertexDirection pcAxis) p < 9999)
    spacePointVec ->
  Forall (fun p => fiducial self (spacePointPos p)) spacePointVec ->
  state (tag_particle self pcAxis hitVecs spacePointVec) = mkTagState 0 kNotTagged
  /\ fCosmicType (make_tag (tag_particle self pcAxis hitVecs spacePointVec)) = kNotTagged
  /\ fCosmicScore (make_tag (tag_particle self pcAxis hitVecs spacePointVec)) = 0.
Proof.
  intros Hl Harc Hbox.
  assert (Hst : state (tag_particle self pcAxis hitVecs spacePointVec) = initial).
  { destruct spacePointVec as [|p0 l] eqn:El.
    { unfold tag_particle. rewrite (timing_filter_level self hitVecs Hl).
      rewrite classify_skipped by auto. reflexivity. }
    rewrite <- El in *.
    destruct (Rle_or_lt (getEigenValues pcAxis 0%nat) 0) as [He | He].
    { unfold tag_particle. rewrite (timing_filter_level self hitVecs Hl).
      rewrite classify_skipped by auto. reflexivity. }
    destruct (Rle_or_lt (transRMS pcAxis) 0) as [Ht | Ht].
    { unfold tag_particle. rewrite (timing_filter_level self hitVecs Hl).
      rewrite classify_skipped by auto. reflexivity. }
    assert (Hmin : Exists (fun p => arcLen (vertexPosition pcAxis) (vertexDirection pcAxis) p < 9999)
                     spacePointVec).
    { rewrite El. apply Exists_cons_hd. rewrite El in Harc.
      apply Forall_inv in Harc. lra. }
    assert (Hmax : Exists (fun p => -9999 < arcLen (vertexPosition pcAxis) (vertexDirection pcAxis) p)
                     spacePointVec).
    { rewrite El. apply Exists_cons_hd. rewrite El in Harc.
      apply Forall_inv in Harc. lra. }
    destruct (start_is_first_min self pcAxis hitVecs Hl He Ht _ Hmin) as (p & Hp & Hs).
    destruct (end_is_first_max self pcAxis hitVecs Hl He Ht _ Hmax) as (q & Hq & He').
    assert (E : state (tag_particle self pcAxis hitVecs spacePointVec)
                = boundary_tag self
                    (trackEndPt1 (tag_particle self pcAxis hitVecs spacePointVec))
                    (trackEndPt2 (tag_particle self pcAxis hitVecs spacePointVec))
                    initial).
    { unfold tag_particle. rewrite (timing_filter_level self hitVecs Hl).
      rewrite classify_projected; [reflexivity | reflexivity | | assumption | assumption].
      rewrite El. discriminate. }
    rewrite E, Hs, He'. apply boundary_tag_no_flag; apply fiducial_no_flag.
    - apply (proj1 (Forall_forall _ _) Hbox). now apply first_min_In with (1 := Hp).
    - apply (proj1 (Forall_forall _ _) Hbox). now apply first_max_In with (1 := Hq). }
  unfold make_tag. cbn [fCosmicType fCosmicScore]. rewrite Hst.
  repeat split; reflexivity.
Qed.

(** X7. The timing scan leaves level 0 exactly when every hit of every
    cluster has [PeakTimeMinusRMS >= ticks] and [PeakTimePlusRMS <= 2 ticks],
    the bounds being in time, and level 1 with OutsideDrift_Partial exactly
    when some hit fails one of the two. *)
Theorem timing_scan_outcome (hitVecs : list (list Hit)) :
  (timing_filter self hitVecs initial = mkTagState 0 kNotTagged
   <-> Forall (Forall (in_window self)) hitVecs)
  /\ (timing_filter self hitVecs initial = mkTagState 1 kOutsideDrift_Partial
      <-> Exists (Exists (fun hit => ~ in_window self hit)) hitVecs).
Proof.
  rewrite timing_filter_existsb.
  destruct (existsb (existsb (out_of_time self)) hitVecs) eqn:E.
  - apply existsb_exists in E. destruct E as (hitVec & Hin & E).
    apply existsb_exists in E. destruct E as (hit & Hhit & E).
    assert (Hout : ~ in_window self hit).
    { intros Hw. apply out_of_time_false_iff in Hw. congruence. }
    split; split; intros H; try discriminate; try reflexivity.
    + exfalso. apply Hout.
      apply (proj1 (Forall_forall _ _) (proj1 (Forall_forall _ _) H hitVec Hin) hit Hhit).
    + apply Exists_exists. exists hitVec. split; [exact Hin|].
      apply Exists_exists. now exists hit.
  - assert (Hall : Forall (Forall (in_window self)) hitVecs).
    { apply Forall_forall. intros hitVec Hin. apply Forall_forall. intros hit Hhit.
      apply out_of_time_false_iff.
      destruct (out_of_time self hit) eqn:Eo; [|reflexivity].
      assert (existsb (existsb (out_of_time self)) hitVecs = true); [|congruence].
      apply existsb_exists. exists hitVec. split; [exact Hin|].
      apply existsb_exists. now exists hit. }
    split; split; intros H; try discriminate; try reflexivity; try exact Hall.
    exfalso. apply Exists_exists in H. destruct H as (hitVec & Hin & H).
    apply Exists_exists in H. destruct H as (hit & Hhit & H). apply H.
    apply (proj1 (Forall_forall _ _) (proj1 (Forall_forall _ _) Hall hitVec Hin) hit Hhit).
Qed.

End Contained.

(** ** Axis selection for any number of axes *)

Lemma hd_rev {A : Type} (l : list A) (d : A) : hd d (rev l) = last l d.
Proof.
  induction l as [|a l IH]; [reflexivity|].
  cbn [rev]. destruct l as [|b l]; [reflexivity|].
  change (last (a :: b :: l) d) with (last (b :: l) d). rewrite <- IH.
  cbn [rev]. destruct (rev l ++ [b]) eqn:E; [|reflexivity].
  now destruct (rev l).
Qed.

Lemma last_rev {A : Type} (l : list A) (d : A) : last (rev l) d = hd d l.
Proof. rewrite <- (rev_involutive l) at 2. now rewrite hd_rev. Qed.

(** X8. For any non-empty list of axes the ordering keeps the list or
    reverses it as a whole; the canonical axis, its new first element, is
    the first-listed axis unless the last-listed one has a strictly smaller
    id, so its id is the smaller of the two; ordering an ordered list
    changes nothing. *)
Theorem canonical_axis_has_smaller_end_id (first : PCAxis) (rest : list PCAxis) :
  (order_axes (first :: rest) = first :: rest
   \/ order_axes (first :: rest) = rev (first :: rest))
  /\ hd first (order_axes (first :: rest))
     = (if (getID (last (first :: rest) first) <? getID first)%nat
        then last (first :: rest) first else first)
  /\ getID (hd first (order_axes (first :: rest)))
     = Nat.min (getID first) (getID (last (first :: rest) first))
  /\ order_axes (order_axes (first :: rest)) = order_axes (first :: rest).
Proof.
  assert (Hcases : (getID (last (first :: rest) first) <? getID first)%nat = true
                   /\ order_axes (first :: rest) = rev (first :: rest)
                   \/ order_axes (first :: rest) = first :: rest
                      /\ ((getID (last (first :: rest) first) <? getID first)%nat = false
                          \/ rest = [])).
  { unfold order_axes.
    destruct (1 <? length (first :: rest))%nat eqn:E1;
      destruct (getID (last (first :: rest) first) <? getID first)%nat eqn:E2;
      cbn [andb]; auto.
    right. split; [reflexivity|]. right.
    destruct rest; [reflexivity | discriminate]. }
  destruct Hcases as [(E2 & Hrev) | (Hid & Hno)].
  - rewrite Hrev, E2. repeat split.
    + now right.
    + apply hd_rev.
    + rewrite hd_rev. apply Nat.ltb_lt in E2. lia.
    + unfold order_axes at 1. destruct (rev (first :: rest)) as [|a l'] eqn:Er.
      { reflexivity. }
      rewrite <- Er.
      assert (Ha : a = last (first :: rest) first).
      { rewrite <- (hd_rev (first :: rest) first), Er. reflexivity. }
      assert (Hlast : last (rev (first :: rest)) a = first).
      { rewrite last_rev. reflexivity. }
      rewrite Hlast, Ha.
      apply Nat.ltb_lt in E2.
      replace (getID first <? getID (last (first :: rest) first))%nat with false
        by (symmetry; apply Nat.ltb_ge; lia).
      now rewrite andb_false_r.
  - rewrite Hid. repeat split.
    + now left.
    + destruct Hno as [E2 | ->]; [now rewrite E2|].
      cbn [last hd]. now destruct (_ <? _)%nat.
    + destruct Hno as [E2 | ->].
      * apply Nat.ltb_ge in E2. cbn [hd]. lia.
      * cbn [last hd]. lia.
    + exact Hid.
Qed.

(** ** The end points bracket the space points *)

(** X9. With level 0 after the timing scan, positive dominant eigenvalue
    and transverse spread, and at least one space point, all arc lengths
    being strictly between -9999 and 9999: both end points are space points
    of the object, and the arc length of every space point lies between
    those of the start and of the end. *)
Theorem end_points_bracket_space_points (self : CosmicPCAxisTagger)
  (pcAxis : PCAxis) (hitVecs : list (list Hit)) (spacePointVec : list SpacePoint) :
  isCosmic (timing_filter self hitVecs initial) = 0%Z ->
  0 < getEigenValues pcAxis 0%nat ->
  0 < transRMS pcAxis ->
  spacePointVec <> [] ->
  Forall (fun p =>
            -9999 < arcLen (vertexPosition pcAxis) (vertexDirection pcAxis) p < 9999)
    spacePointVec ->
  exists p q,
    In p spacePointVec /\ In q spacePointVec
    /\ trackEndPt1 (tag_particle self pcAxis hitVecs spacePointVec) = spacePointPos p
    /\ trackEndPt2 (tag_particle self pcAxis hitVecs spacePointVec) = spacePointPos q
    /\ forall r, In r spacePointVec ->
         arcLen (vertexPosition pcAxis) (vertexDirection pcAxis) p
         <= arcLen (vertexPosition pcAxis) (vertexDirection pcAxis) r
         <= arcLen (vertexPosition pcAxis) (vertexDirection pcAxis) q.
Proof.
  intros Hl He Ht Hne Harc.
  destruct spacePointVec as [|p0 l] eqn:El; [contradiction|]. rewrite <- El in *.
  assert (H0 : -9999 < arcLen (vertexPosition pcAxis) (vertexDirection pcAxis) p0 < 9999).
  { rewrite El in Harc. now apply Forall_inv in Harc. }
  assert (Hmin : Exists (fun p => arcLen (vertexPosition pcAxis) (vertexDirection pcAxis) p < 9999)
                   spacePointVec).
  { rewrite El. apply Exists_cons_hd. lra. }
  assert (Hmax : Exists (fun p => -9999 < arcLen (vertexPosition pcAxis) (vertexDirection pcAxis) p)
                   spacePointVec).
  { rewrite El. apply Exists_cons_hd. lra. }
  destruct (start_is_first_min self pcAxis hitVecs Hl He Ht _ Hmin) as (p & Hp & Hs).
  destruct (end_is_first_max self pcAxis hitVecs Hl He Ht _ Hmax) as (q & Hq & He').
  exists p, q. repeat split; try assumption.
  - now apply first_min_In with (1 := Hp).
  - now apply first_max_In with (1 := Hq).
  - now apply first_min_le with (1 := Hp).
  - now apply first_max_ge with (1 := Hq).
Qed.

(** ** When [produce] returns, and what its tables hold *)

Section Returns.

Variable self : CosmicPCAxisTagger.
Variable evt : art.Event.

Lemma Forall2_Forall_exists {A B : Type} (P : A -> B -> Prop) (l : list A) (l' : list B) :
  Forall2 P l l' -> Forall (fun a => exists b, P a b) l.
Proof. induction 1 as [|a b l l' Hab _ IH]; constructor; [now exists b | exact IH]. Qed.

Lemma Forall2_In_l {A B : Type} (P : A -> B -> Prop) (l : list A) (l' : list B) (a : A) :
  Forall2 P l l' -> In a l -> exists b, P a b.
Proof.
  intros H Ha. apply Forall2_Forall_exists in H.
  now apply (proj1 (Forall_forall _ _) H).
Qed.

Lemma tag_one_lookups (i : nat) (out out' : Outputs) :
  tag_one self evt i out = Ok out' ->
  exists axes, art.at_ (art.pfPartToPCAxisAssns evt) i = Ok axes
    /\ (axes <> [] ->
        exists clusterVec spacePointVec,
          art.at_ (art.clusterAssns evt) i = Ok clusterVec
          /\ art.at_ (art.spacePointAssnVec evt) i = Ok spacePointVec
          /\ Forall (fun c => exists hitVec,
                       hits_of (art.clusterHitAssns evt) c = Ok hitVec)
               clusterVec).
Proof.
  intros H. destruct (tag_one_inv self evt i out out' H)
    as [(Hax & _ & _) | (_ & tag & Htag & _)].
  - unfold axes_of in Hax. unfold tag_one in H.
    destruct (art.at_ (art.pfPartToPCAxisAssns evt) i) as [axes|e]; [|discriminate].
    exists axes. split; [reflexivity|]. intros Hne. contradiction.
  - destruct Htag as (first & rest & clusterVec & hitVecs & spacePointVec
                      & Hax & Hcl & Hhits & Hsp & _).
    exists (first :: rest). split; [exact Hax|]. intros _.
    exists clusterVec, spacePointVec. repeat split; try assumption.
    now apply Forall2_Forall_exists with hitVecs.
Qed.

Lemma tag_all_lookups (indices : list nat) (out out' : Outputs) (i : nat) :
  tag_all self evt indices out = Ok out' -> In i indices ->
  exists out0 out1, tag_one self evt i out0 = Ok out1.
Proof.
  revert out. induction indices as [|j rest IH]; intros out H Hi; [destruct Hi|].
  cbn [tag_all] in H.
  destruct (tag_one self evt j out) as [out1|e] eqn:E; cbn [bind] in H; [|discriminate].
  destruct Hi as [<- | Hi]; [now exists out, out1 | now apply IH with out1].
Qed.

Lemma tag_all_no_axis (indices : list nat) (out : Outputs) :
  Forall (fun i => art.at_ (art.pfPartToPCAxisAssns evt) i = Ok []) indices ->
  tag_all self evt indices out = Ok out.
Proof.
  induction 1 as [|i rest Hi _ IH]; [reflexivity|].
  cbn [tag_all]. unfold tag_one. rewrite Hi. cbn [bind]. exact IH.
Qed.

End Returns.

(** X10. With the three collections present, [produce] returns, rather
    than raising, exactly when the lookup of the axes succeeds for every
    particle and, for every particle with an axis, the lookups of its
    clusters, of the hits of each cluster and of its space points succeed;
    nothing is looked up for a particle without axis beyond its axes. *)
Theorem produce_returns_iff_lookups_succeed (self : CosmicPCAxisTagger)
  (evt : art.Event) (pfParticles : list PFParticle) :
  art.pfParticleHandle evt = Some pfParticles ->
  art.pcaxisHandle evt <> None ->
  art.clusterHandle evt <> None ->
  ((exists out, produce self evt = Ok out)
   <-> lookups_succeed evt (length pfParticles)).
Proof.
  intros Hpf Hax Hcl.
  assert (E : produce self evt
              = tag_all self evt (seq 0 (length pfParticles)) no_output).
  { unfold produce. rewrite Hpf.
    destruct (art.pcaxisHandle evt); [|contradiction].
    destruct (art.clusterHandle evt); [|contradiction]. reflexivity. }
  rewrite E. split.
  - intros (out & Hout) i Hi.
    destruct (tag_all_lookups self evt _ _ _ i Hout) as (out0 & out1 & H1).
    { apply in_seq. lia. }
    now apply tag_one_lookups with (1 := H1).
  - intros Hok. apply tag_all_total with (length pfParticles); [exact Hok|].
    apply Forall_forall. intros i Hi. apply in_seq in Hi. lia.
Qed.

(** X11. With the three collections present, when no particle has an axis,
    in particular when there is no particle, the three products are put
    empty, whether or not the associations of clusters, hits and space
    points exist. *)
Theorem no_axis_gives_empty_products (self : CosmicPCAxisTagger)
  (evt : art.Event) (pfParticles : list PFParticle) :
  art.pfParticleHandle evt = Some pfParticles ->
  art.pcaxisHandle evt <> None ->
  art.clusterHandle evt <> None ->
  (forall i, (i < length pfParticles)%nat ->
     art.at_ (art.pfPartToPCAxisAssns evt) i = Ok []) ->
  produce self evt = Ok (mkOutputs [] [] []).
Proof.
  intros Hpf Hax Hcl Hno. unfold produce. rewrite Hpf.
  destruct (art.pcaxisHandle evt); [|contradiction].
  destruct (art.clusterHandle evt); [|contradiction].
  cbn [art.isValid negb orb]. apply tag_all_no_axis.
  apply Forall_forall. intros i Hi. apply in_seq in Hi. apply Hno. lia.
Qed.

(** X12. Whenever [produce] returns, the k-th entry of the particle table
    points to the k-th tag, no particle has two entries, every entry of the
    axis table points to a tag that exists, and every tag has at least one
    entry in the axis table. *)
Theorem tables_point_to_emitted_tags (self : CosmicPCAxisTagger)
  (evt : art.Event) (out : Outputs) :
  produce self evt = Ok out ->
  map snd (assnOutCosmicTagPFParticle out)
  = seq 0 (length (cosmicTagPFParticleVector out))
  /\ NoDup (map fst (assnOutCosmicTagPFParticle out))
  /\ Forall (fun e => (snd e < length (cosmicTagPFParticleVector out))%nat)
       (assnOutCosmicTagPCAxis out)
  /\ (forall k, (k < length (cosmicTagPFParticleVector out))%nat ->
        exists axis, In (axis, k) (assnOutCosmicTagPCAxis out)).
Proof.
  intros H. destruct (produce_inv self evt out H)
    as [-> | (pfParticles & _ & Hfst & Hsnd & Htags & Haxes)].
  { repeat split; try constructor. cbn [no_output cosmicTagPFParticleVector length].
    intros k Hk. lia. }
  assert (Hin : forall entry, In entry (assnOutCosmicTagPFParticle out) ->
                  (snd entry < length (cosmicTagPFParticleVector out))%nat).
  { intros entry He. apply (in_map snd) in He. rewrite Hsnd in He.
    apply in_seq in He. lia. }
  repeat split.
  - exact Hsnd.
  - rewrite Hfst. apply NoDup_filter, seq_NoDup.
  - rewrite Haxes. apply Forall_forall. intros e He.
    apply in_flat_map in He. destruct He as (entry & Hentry & He).
    unfold axis_entries in He. apply in_map_iff in He.
    destruct He as (axis & <- & _). cbn [snd]. now apply Hin.
  - intros k Hk.
    assert (Hk' : In k (map snd (assnOutCosmicTagPFParticle out))).
    { rewrite Hsnd. apply in_seq. lia. }
    apply in_map_iff in Hk'. destruct Hk' as (entry & <- & Hentry).
    destruct (Forall2_In_l _ _ _ entry Htags Hentry)
      as (tag & first & rest & clusterVec & hitVecs & spacePointVec & Hax & _).
    assert (Hne : order_axes (axes_of evt (fst entry)) <> []).
    { rewrite (axes_of_at evt _ _ Hax). apply order_axes_nonempty. discriminate. }
    destruct (order_axes (axes_of evt (fst entry))) as [|axis l] eqn:Eo; [contradiction|].
    exists axis. rewrite Haxes. apply in_flat_map. exists entry. split; [exact Hentry|].
    unfold axis_entries. rewrite Eo. now left.
Qed.

(** ** The further properties on the sample data *)

Lemma level2_kind_witness :
  nearX_at detector (TVector3.mk 2 0 500) = true
  /\ nearX_at detector (TVector3.mk 254 0 500) = true.
Proof.
  assert (H : isCosmic (boundary_tag detector (TVector3.mk 2 0 500)
                          (TVector3.mk 254 0 500) initial) = 2%Z)
    by (evaluate; reflexivity).
  assert (Hk : tag_id (boundary_tag detector (TVector3.mk 2 0 500)
                         (TVector3.mk 254 0 500) initial) = kGeometry_XX)
    by (evaluate; reflexivity).
  generalize (level2_kind_names_near_faces detector (TVector3.mk 2 0 500)
                (TVector3.mk 254 0 500) H).
  rewrite Hk. exact (fun x => x).
Defined.

Lemma decision_symmetric_witness :
  boundary_tag detector (TVector3.mk 2 0 500) (TVector3.mk 254 0 2) initial
  = boundary_tag detector (TVector3.mk 254 0 2) (TVector3.mk 2 0 500) initial.
Proof.
  apply (decision_symmetric_when_exits_agree detector (TVector3.mk 2 0 500)
           (TVector3.mk 254 0 2) initial).
  unfold exit_at. evaluate. reflexivity.
Defined.

Lemma contained_object_witness :
  state (tag_particle detector inner_axis [[in_time_hit]] inner_points)
  = mkTagState 0 kNotTagged.
Proof.
  apply (contained_object_is_untagged detector inner_axis [[in_time_hit]] inner_points).
  - evaluate. reflexivity.
  - repeat constructor; evaluate; lra.
  - repeat constructor; evaluate; lra.
Defined.

Lemma end_points_bracket_witness :
  exists p q,
    In p inner_points /\ In q inner_points
    /\ trackEndPt1 (tag_particle detector inner_axis [[in_time_hit]] inner_points)
       = spacePointPos p
    /\ trackEndPt2 (tag_particle detector inner_axis [[in_time_hit]] inner_points)
       = spacePointPos q.
Proof.
  assert (H1 : isCosmic (timing_filter detector [[in_time_hit]] initial) = 0%Z)
    by (evaluate; reflexivity).
  assert (H2 : 0 < getEigenValues inner_axis 0%nat)
    by (cbv [inner_axis x_axis getEigenValues array3]; lra).
  assert (H3 : inner_points <> []) by discriminate.
  assert (H4 : Forall (fun p => -9999 < arcLen (vertexPosition inner_axis)
                                          (vertexDirection inner_axis) p < 9999)
                 inner_points)
    by (repeat constructor; evaluate; lra).
  destruct (end_points_bracket_space_points detector inner_axis [[in_time_hit]]
              inner_points H1 H2 (transRMS_x_axis 1 128 10) H3 H4)
    as (p & q & Hp & Hq & Hs & He & _).
  exists p, q. repeat split; assumption.
Defined.

Lemma produce_returns_witness :
  (exists out, produce detector sample_event = Ok out)
  <-> lookups_succeed sample_event 3.
Proof.
  apply (produce_returns_iff_lookups_succeed detector sample_event
           [mkPFParticle 0; mkPFParticle 1; mkPFParticle 2]).
  - reflexivity.
  - discriminate.
  - discriminate.
Defined.

Lemma no_axis_witness :
  produce detector event_without_any_axis = Ok (mkOutputs [] [] []).
Proof.
  apply (no_axis_gives_empty_products detector event_without_any_axis
           [mkPFParticle 0; mkPFParticle 1]).
  - reflexivity.
  - discriminate.
  - discriminate.
  - intros i Hi. destruct i as [|[|i]]; [reflexivity | reflexivity |].
    cbn [length] in Hi. lia.
Defined.

Lemma tables_witness :
  NoDup (map fst (assnOutCosmicTagPFParticle sample_output)).
Proof.
  apply (tables_point_to_emitted_tags detector sample_event sample_output).
  exact sample_event_output.
Defined.

(** ** The further properties of AlgoThreshold *)

(** ** Runs of a list of booleans *)

Section Runs.

Import pmtana.

(** [g] gives the element at each index of the whole list, [false] beyond
    its end; [bs] is the part of the list from index [i] on. *)
Variable g : nat -> bool.

Definition continues (i : nat) (bs : list bool) : Prop :=
  forall j, nth j bs false = g (i + j)%nat.

Definition open_at (i : nat) (open : option nat) : Prop :=
  match open with
  | Some a =>
      (a < i)%nat /\ (forall j, (a <= j < i)%nat -> g j = true)
      /\ (a = 0%nat \/ g (a - 1)%nat = false)
  | None => i = 0%nat \/ g (i - 1)%nat = false
  end.

Definition from (i : nat) (open : option nat) : nat :=
  match open with Some a => a | None => i end.

(** A maximal run of [true]. *)
Definition maximal_run (ab : nat * nat) : Prop :=
  (fst ab <= snd ab)%nat
  /\ (forall j, (fst ab <= j <= snd ab)%nat -> g j = true)
  /\ (fst ab = 0%nat \/ g (fst ab - 1)%nat = false)
  /\ g (S (snd ab)) = false.

Lemma continues_cons (i : nat) (b : bool) (bs : list bool) :
  continues i (b :: bs) -> g i = b /\ continues (S i) bs.
Proof.
  intros H. split.
  - specialize (H 0%nat). cbn [nth] in H. now rewrite Nat.add_0_r in H.
  - intros j. specialize (H (S j)). cbn [nth] in H.
    now replace (S i + j)%nat with (i + S j)%nat by lia.
Qed.

Lemma continues_nil (i j : nat) : continues i [] -> (i <= j)%nat -> g j = false.
Proof.
  intros H Hj. specialize (H (j - i)%nat).
  replace (i + (j - i))%nat with j in H by lia. now destruct (j - i)%nat.
Qed.

Lemma open_at_step (i : nat) (open : option nat) (b : bool) :
  open_at i open -> g i = b ->
  open_at (S i)
    (match open, b with
     | None, true => Some i
     | None, false => None
     | Some a, true => Some a
     | Some a, false => None
     end).
Proof.
  intros Ho Hg. destruct open as [a|], b; cbn [open_at] in *.
  - destruct Ho as (Ha & Hrun & Hbefore). repeat split; [lia | | exact Hbefore].
    intros j Hj. destruct (Nat.eq_dec j i) as [-> | Hne]; [exact Hg | apply Hrun; lia].
  - right. now replace (S i - 1)%nat with i by lia.
  - repeat split; [lia | | exact Ho].
    intros j Hj. now replace j with i by lia.
  - right. now replace (S i - 1)%nat with i by lia.
Qed.

Lemma runs_from_maximal (bs : list bool) (i : nat) (open : option nat) :
  continues i bs -> open_at i open ->
  Forall (fun ab => maximal_run ab /\ (snd ab < i + length bs)%nat
                    /\ (from i open <= fst ab)%nat)
    (runs_from i open bs).
Proof.
  revert i open. induction bs as [|b bs IH]; intros i open Hc Ho.
  - destruct open as [a|]; cbn [runs_from]; constructor; [|constructor].
    destruct Ho as (Ha & Hrun & Hbefore). unfold maximal_run. cbn [fst snd from length].
    repeat split; try lia; try assumption.
    + intros j Hj. apply Hrun. lia.
    + apply (continues_nil i); [exact Hc | lia].
  - destruct (continues_cons i b bs Hc) as (Hg & Hc').
    assert (Ho' := open_at_step i open b Ho Hg).
    specialize (IH (S i) _ Hc' Ho').
    assert (Hweak : forall (o : option nat) (l : list (nat * nat)),
               (from i open <= from (S i) o)%nat ->
               Forall (fun ab => maximal_run ab /\ (snd ab < S i + length bs)%nat
                                 /\ (from (S i) o <= fst ab)%nat) l ->
               Forall (fun ab => maximal_run ab
                                 /\ (snd ab < i + length (b :: bs))%nat
                                 /\ (from i open <= fst ab)%nat) l).
    { intros o l Hle. apply Forall_impl. intros ab (H1 & H2 & H3).
      cbn [length]. split; [exact H1 | split; lia]. }
    destruct open as [a|], b; cbn [runs_from].
    + apply (Hweak (Some a)); [cbn [from]; lia | exact IH].
    + constructor.
      * destruct Ho as (Ha & Hrun & Hbefore). unfold maximal_run.
        cbn [fst snd from length]. repeat split; try lia; try assumption.
        -- intros j Hj. apply Hrun. lia.
        -- now replace (S (i - 1)) with i by lia.
      * apply (Hweak None); [|exact IH]. cbn [from open_at] in *. lia.
    + apply (Hweak (Some i)); [cbn [from]; lia | exact IH].
    + apply (Hweak None); [cbn [from]; lia | exact IH].
Qed.

Lemma runs_from_cover (bs : list bool) (i : nat) (open : option nat) (j : nat) :
  continues i bs -> open_at i open ->
  (from i open <= j)%nat -> g j = true ->
  exists ab, In ab (runs_from i open bs) /\ (fst ab <= j <= snd ab)%nat.
Proof.
  revert i open. induction bs as [|b bs IH]; intros i open Hc Ho Hj Hg.
  - assert (Hlt : (j < i)%nat).
    { destruct (Nat.lt_ge_cases j i) as [H | H]; [exact H|].
      rewrite (continues_nil i j Hc H) in Hg. discriminate. }
    destruct open as [a|]; cbn [from] in Hj; [|lia].
    exists (a, (i - 1)%nat). split; [now left | cbn [fst snd]; lia].
  - destruct (continues_cons i b bs Hc) as (Hgi & Hc').
    assert (Ho' := open_at_step i open b Ho Hgi).
    destruct open as [a|], b; cbn [runs_from from] in *.
    + apply (IH (S i) (Some a)); assumption.
    + destruct (Nat.lt_ge_cases j i) as [Hlt | Hge].
      * exists (a, (i - 1)%nat). split; [now left | cbn [fst snd]; lia].
      * assert (Hne : j <> i) by (intros ->; congruence).
        destruct (IH (S i) None Hc' Ho') as (ab & Hin & Hab);
          [cbn [from]; lia | exact Hg |].
        exists ab. split; [now right | exact Hab].
    + apply (IH (S i) (Some i)); assumption.
    + assert (Hne : j <> i) by (intros ->; congruence).
      apply (IH (S i) None); [assumption | assumption | cbn [from]; lia | exact Hg].
Qed.

Lemma runs_from_sorted (bs : list bool) (i : nat) (open : option nat) :
  continues i bs -> open_at i open ->
  StronglySorted (fun x y => (S (snd x) < fst y)%nat) (runs_from i open bs).
Proof.
  revert i open. induction bs as [|b bs IH]; intros i open Hc Ho.
  - destruct open; cbn [runs_from]; repeat constructor.
  - destruct (continues_cons i b bs Hc) as (Hgi & Hc').
    assert (Ho' := open_at_step i open b Ho Hgi).
    destruct open as [a|], b; cbn [runs_from]; try (apply IH; assumption).
    constructor; [apply IH; assumption|].
    assert (H := runs_from_maximal bs (S i) None Hc' Ho').
    eapply Forall_impl; [|exact H]. cbv beta. intros ab (_ & _ & Hfrom).
    cbn [from snd fst] in *. destruct Ho as (Ha & _). lia.
Qed.

End Runs.

(** ** The loop of [RecoPulse] finds the runs above the threshold *)

Section RecoPulseLoop.

Import pmtana.

Variable reset_param : pulse_param -> pulse_param.
Variables threshold ped_mean : R.

Lemma Rge_b_iff (a b : R) : Rge_b a b = true <-> b <= a.
Proof. unfold Rge_b. rewrite negb_true_iff. apply Rlt_b_false_iff. Qed.

Lemma Rge_b_false_iff (a b : R) : Rge_b a b = false <-> a < b.
Proof. unfold Rge_b. rewrite negb_false_iff. apply Rlt_b_iff. Qed.

(** The state of the loop at sample [n], a pulse being open or not. *)
Definition at_sample (n : nat) (open : option nat) (s : Loop) : Prop :=
  counter s = INR n
  /\ match open with
     | Some a => fire s = true /\ t_start (pulse s) = INR a /\ (a < n)%nat
     | None => fire s = false
     end.

Lemma sample_step_above (n : nat) (open : option nat) (s : Loop) (value : Z) :
  at_sample n open s -> Rge_b (IZR value) threshold = true ->
  at_sample (S n) (Some (match open with Some a => a | None => n end))
    (sample_step reset_param threshold ped_mean s value)
  /\ pulse_v (sample_step reset_param threshold ped_mean s value) = pulse_v s.
Proof.
  intros (Hc & Ho) Hv.
  assert (Hlt : Rlt_b (IZR value) threshold = false).
  { unfold Rge_b in Hv. now apply negb_true_iff in Hv. }
  unfold sample_step, at_sample. cbn [counter fire pulse pulse_v].
  rewrite S_INR.
  destruct open as [a|].
  - destruct Ho as (Hf & Ht & Ha).
    unfold open_pulse. rewrite Hf. cbn [negb andb].
    unfold close_pulse. rewrite Hf, Hlt. cbn [andb].
    unfold integrate. rewrite Hf. cbn [counter fire pulse pulse_v].
    repeat split; try (rewrite Hc; reflexivity); try lia.
    destruct (Rlt_b (peak _) (IZR value - ped_mean)); cbn [t_start]; exact Ht.
  - unfold open_pulse. rewrite Ho, Hv. cbn [negb andb].
    unfold close_pulse. cbn [fire]. rewrite Hlt. cbn [andb].
    unfold integrate. cbn [counter fire pulse pulse_v].
    repeat split; try (rewrite Hc; reflexivity); try lia.
    destruct (Rlt_b (peak _) (IZR value - ped_mean)); cbn [t_start]; exact Hc.
Qed.

Lemma sample_step_below (n : nat) (open : option nat) (s : Loop) (value : Z) :
  at_sample n open s -> Rge_b (IZR value) threshold = false ->
  at_sample (S n) None (sample_step reset_param threshold ped_mean s value)
  /\ exists new,
       pulse_v (sample_step reset_param threshold ped_mean s value) = pulse_v s ++ new
       /\ map span new
          = map INR_pair (match open with Some a => [(a, (n - 1)%nat)] | None => [] end).
Proof.
  intros (Hc & Ho) Hv.
  assert (Hlt : Rlt_b (IZR value) threshold = true).
  { unfold Rge_b in Hv. now apply negb_false_iff in Hv. }
  unfold sample_step, at_sample. cbn [counter fire pulse pulse_v].
  rewrite S_INR.
  destruct open as [a|].
  - destruct Ho as (Hf & Ht & Ha).
    unfold open_pulse. rewrite Hf. cbn [negb andb].
    unfold close_pulse. rewrite Hf, Hlt. cbn [andb].
    unfold integrate, store_pulse. cbn [counter fire pulse pulse_v].
    split; [split; [now rewrite Hc | reflexivity]|].
    eexists. split; [reflexivity|].
    cbn [map]. unfold span, INR_pair. cbn [fst snd t_start t_end]. rewrite Ht, Hc.
    rewrite minus_INR by lia. reflexivity.
  - unfold open_pulse. rewrite Ho, Hv. cbn [negb andb].
    unfold close_pulse. rewrite Ho. cbn [andb].
    unfold integrate. rewrite Ho. cbn [counter fire pulse pulse_v].
    split; [split; [now rewrite Hc | exact Ho]|].
    exists []. split; [now rewrite app_nil_r | reflexivity].
Qed.

(** The pulses stored from sample [n] on span the runs found from [n] on. *)
Lemma loop_stores_runs (wf : list Z) (n : nat) (open : option nat) (s : Loop) :
  at_sample n open s ->
  exists new,
    pulse_v (finish reset_param
               (fold_left (sample_step reset_param threshold ped_mean) wf s))
    = pulse_v s ++ new
    /\ map span new = map INR_pair (runs_from n open (above threshold wf)).
Proof.
  revert n open s. induction wf as [|value wf IH]; intros n open s Hs.
  - cbn [fold_left above map runs_from]. unfold finish.
    destruct Hs as (Hc & Ho). destruct open as [a|].
    + destruct Ho as (Hf & Ht & Ha). rewrite Hf. unfold store_pulse.
      cbn [pulse_v]. eexists. split; [reflexivity|].
      cbn [map]. unfold span, INR_pair. cbn [fst snd t_start t_end]. rewrite Ht, Hc.
      rewrite minus_INR by lia. reflexivity.
    + rewrite Ho. exists []. split; [now rewrite app_nil_r | reflexivity].
  - cbn [fold_left above map runs_from].
    destruct (Rge_b (IZR value) threshold) eqn:Hv.
    + destruct (sample_step_above n open s value Hs Hv) as (Hs' & Hpv).
      destruct (IH _ _ _ Hs') as (new & Hnew & Hspans).
      exists new. rewrite Hnew, Hpv. split; [reflexivity|].
      rewrite Hspans. now destruct open.
    + destruct (sample_step_below n open s value Hs Hv) as (Hs' & new0 & Hpv & Hsp0).
      destruct (IH _ _ _ Hs') as (new & Hnew & Hspans).
      exists (new0 ++ new). rewrite Hnew, Hpv, <- app_assoc. split; [reflexivity|].
      rewrite map_app, Hsp0, Hspans. now destruct open.
Qed.

End RecoPulseLoop.

Section RecoPulseResult.

Import pmtana.

Variable reset_param : pulse_param -> pulse_param.
Variable Reset : AlgoThreshold -> AlgoThreshold.

Lemma above_nth_true (th : R) (wf : list Z) (j : nat) :
  nth j (above th wf) false = true
  <-> (j < length wf)%nat /\ th <= IZR (nth j wf 0%Z).
Proof.
  unfold above. destruct (Nat.lt_ge_cases j (length wf)) as [Hlt | Hge].
  - rewrite (nth_indep _ false (Rge_b (IZR 0%Z) th)) by now rewrite length_map.
    rewrite (map_nth (fun value => Rge_b (IZR value) th)), Rge_b_iff. tauto.
  - rewrite nth_overflow by now rewrite length_map.
    split; [discriminate | lia].
Qed.

Lemma above_nth_false (th : R) (wf : list Z) (j : nat) :
  (j < length wf)%nat -> nth j (above th wf) false = false ->
  IZR (nth j wf 0%Z) < th.
Proof.
  intros Hlt. unfold above.
  rewrite (nth_indep _ false (Rge_b (IZR 0%Z) th)) by now rewrite length_map.
  rewrite (map_nth (fun value => Rge_b (IZR value) th)). apply Rge_b_false_iff.
Qed.

Lemma new_pulses_app (before new : list pulse_param) :
  new_pulses before (before ++ new) = new.
Proof.
  unfold new_pulses. induction before as [|p before IH]; [reflexivity | exact IH].
Qed.

Lemma map_eq_Forall2 {A B C : Type} (f : A -> C) (h : B -> C) (l : list A) (l' : list B) :
  map f l = map h l' -> Forall2 (fun x y => f x = h y) l l'.
Proof.
  revert l'. induction l as [|x l IH]; intros [|y l'] E; try discriminate; constructor.
  - now injection E.
  - apply IH. now injection E.
Qed.

(** What [RecoPulse] stores: the pulses left by [Reset], then one pulse for
    each run of samples at or above the threshold. *)
Lemma RecoPulse_stores_runs (self : AlgoThreshold) (wf : list Z) :
  exists new,
    _pulse_v (snd (RecoPulse reset_param Reset self wf)) = _pulse_v (Reset self) ++ new
    /\ Forall2 (fun p ab => span p = INR_pair ab) new
         (runs_from 0 None (above (threshold self) wf)).
Proof.
  unfold RecoPulse. cbn [snd _pulse_v].
  destruct (loop_stores_runs reset_param (threshold self) (_ped_mean (Reset self)) wf
              0 None (mkLoop false 0 (_pulse (Reset self)) (_pulse_v (Reset self))))
    as (new & Hnew & Hspans).
  { split; reflexivity. }
  exists new. split; [exact Hnew | now apply map_eq_Forall2].
Qed.

Lemma runs_of_waveform (th : R) (wf : list Z) :
  continues (fun j => nth j (above th wf) false) 0 (above th wf)
  /\ open_at (fun j => nth j (above th wf) false) 0 None.
Proof. split; [intros j; reflexivity | now left]. Qed.

End RecoPulseResult.

Section RecoPulseProperties.

Import pmtana.

Variable reset_param : pulse_param -> pulse_param.
Variable Reset : AlgoThreshold -> AlgoThreshold.
Variable self : AlgoThreshold.
Variable wf : list Z.

Lemma appended_runs :
  _pulse_v (snd (RecoPulse reset_param Reset self wf))
  = _pulse_v (Reset self) ++ appended reset_param Reset self wf
  /\ Forall2 (fun p ab => span p = INR_pair ab) (appended reset_param Reset self wf)
       (runs_from 0 None (above (threshold self) wf)).
Proof.
  destruct (RecoPulse_stores_runs reset_param Reset self wf) as (new & Hnew & Hspans).
  unfold appended. rewrite Hnew, new_pulses_app. split; [reflexivity | exact Hspans].
Qed.

(** X13. [RecoPulse] keeps the pulses left by [Reset] and appends to them;
    every appended pulse starts and ends at sample indices [a <= b] of the
    waveform such that all samples from [a] to [b] are at or above the
    threshold, the sample before [a], if any, is below it, and the sample
    after [b], if any, is below it. *)
Theorem stored_pulses_are_maximal_runs :
  _pulse_v (snd (RecoPulse reset_param Reset self wf))
  = _pulse_v (Reset self) ++ appended reset_param Reset self wf
  /\ Forall (fun p =>
               exists a b : nat,
                 t_start p = INR a /\ t_end p = INR b
                 /\ (a <= b < length wf)%nat
                 /\ (forall i, (a <= i <= b)%nat ->
                       threshold self <= IZR (nth i wf 0%Z))
                 /\ ((0 < a)%nat -> IZR (nth (a - 1) wf 0%Z) < threshold self)
                 /\ ((S b < length wf)%nat ->
                       IZR (nth (S b) wf 0%Z) < threshold self))
       (appended reset_param Reset self wf).
Proof.
  destruct appended_runs as (Hnew & Hspans). split; [exact Hnew|]. clear Hnew.
  destruct (runs_of_waveform (threshold self) wf) as (Hc & Ho).
  assert (Hruns := runs_from_maximal _ _ 0 None Hc Ho).
  induction Hspans as [|p ab new runs Hp _ IH]; constructor.
  - apply Forall_inv in Hruns. destruct Hruns as ((Hab & Hin & Hpre & Hpost) & Hlen & _).
    unfold span, INR_pair in Hp. injection Hp as Hs He.
    exists (fst ab), (snd ab). unfold above in Hlen. rewrite length_map in Hlen.
    repeat split; try assumption; try lia.
    + intros i Hi. now apply (above_nth_true (threshold self) wf i), Hin.
    + intros Ha. destruct Hpre as [H0 | Hpre]; [lia|].
      apply above_nth_false; [lia | exact Hpre].
    + intros Hb. apply above_nth_false; [exact Hb | exact Hpost].
  - apply IH. now apply Forall_inv_tail in Hruns.
Qed.

(** X14. Every sample at or above the threshold lies between the start and
    the end of an appended pulse, and the appended pulses come in the order
    of the waveform with at least one sample between two of them. *)
Theorem samples_above_threshold_are_in_pulses :
  (forall i, (i < length wf)%nat -> threshold self <= IZR (nth i wf 0%Z) ->
     exists p, In p (appended reset_param Reset self wf)
               /\ t_start p <= INR i <= t_end p)
  /\ StronglySorted (fun p q => t_end p + 1 < t_start q)
       (appended reset_param Reset self wf).
Proof.
  destruct appended_runs as (_ & Hspans).
  destruct (runs_of_waveform (threshold self) wf) as (Hc & Ho).
  split.
  - intros i Hi Hth.
    destruct (runs_from_cover _ _ 0 None i Hc Ho) as (ab & Hin & Hab).
    { cbn [from]. lia. }
    { now apply above_nth_true. }
    clear Hc Ho. induction Hspans as [|p ab' new runs Hp _ IH]; [destruct Hin|].
    destruct Hin as [-> | Hin].
    + exists p. split; [now left|].
      unfold span, INR_pair in Hp. injection Hp as -> ->.
      split; apply le_INR; lia.
    + destruct (IH Hin) as (q & Hq & Hiq). exists q. split; [now right | exact Hiq].
  - assert (Hsorted := runs_from_sorted _ _ 0 None Hc Ho).
    clear Hc Ho. induction Hspans as [|p ab new runs Hp Hrest IH]; [constructor|].
    inversion Hsorted as [|? ? Hs Hall]; subst. constructor; [now apply IH|].
    clear IH Hs Hsorted. induction Hrest as [|q cd new runs Hq _ IH]; constructor.
    + apply Forall_inv in Hall. unfold span, INR_pair in Hp, Hq.
      injection Hp as _ ->. injection Hq as -> _.
      rewrite <- S_INR. apply lt_INR. exact Hall.
    + apply IH. now apply Forall_inv_tail in Hall.
Qed.

Lemma runs_from_all_true (bs : list bool) (i a : nat) :
  Forall (fun b => b = true) bs ->
  runs_from i (Some a) bs = [(a, (i + length bs - 1)%nat)].
Proof.
  intros H. revert i. induction H as [|b bs -> _ IH]; intros i; cbn [runs_from length].
  - now rewrite Nat.add_0_r.
  - rewrite IH. do 2 f_equal. lia.
Qed.

Lemma runs_from_all_false (bs : list bool) (i : nat) :
  Forall (fun b => b = false) bs -> runs_from i None bs = [].
Proof.
  intros H. revert i. induction H as [|b bs -> _ IH]; intros i; cbn [runs_from];
    [reflexivity | apply IH].
Qed.

(** X15. A waveform with no sample at or above the threshold, the empty
    one included, leaves the pulses as [Reset] left them; a non-empty
    waveform with every sample at or above the threshold appends one pulse,
    from sample 0 to the last sample. *)
Theorem flat_and_saturated_waveforms :
  (Forall (fun value => IZR value < threshold self) wf ->
   _pulse_v (snd (RecoPulse reset_param Reset self wf)) = _pulse_v (Reset self))
  /\ (wf <> [] -> Forall (fun value => threshold self <= IZR value) wf ->
      exists p,
        _pulse_v (snd (RecoPulse reset_param Reset self wf))
        = _pulse_v (Reset self) ++ [p]
        /\ t_start p = 0 /\ t_end p = INR (length wf - 1)).
Proof.
  destruct appended_runs as (Hnew & Hspans). rewrite Hnew. clear Hnew.
  revert Hspans. generalize (appended reset_param Reset self wf). intros new Hspans.
  split.
  - intros H. rewrite runs_from_all_false in Hspans.
    + inversion Hspans. now rewrite app_nil_r.
    + unfold above. apply Forall_map. eapply Forall_impl; [|exact H].
      cbv beta. intros value. apply Rge_b_false_iff.
  - intros Hne H. destruct wf as [|value rest]; [contradiction|].
    assert (Hv : Rge_b (IZR value) (threshold self) = true).
    { apply Rge_b_iff. now apply Forall_inv in H. }
    unfold above in Hspans. cbn [map runs_from] in Hspans. rewrite Hv in Hspans.
    rewrite runs_from_all_true in Hspans.
    + inversion Hspans as [|p ab new' runs Hp Hnil]; subst. inversion Hnil; subst.
      exists p. split; [reflexivity|].
      unfold span, INR_pair in Hp. injection Hp as -> ->.
      rewrite length_map. cbn [fst snd length]. split; [reflexivity|].
      f_equal; lia.
    + apply Forall_map. apply Forall_inv_tail in H. eapply Forall_impl; [|exact H].
      cbv beta. intros v. apply Rge_b_iff.
Qed.

End RecoPulseProperties.

Section RecoPulseArea.

Import pmtana.

Variable reset_param : pulse_param -> pulse_param.
Variables threshold ped_mean : R.
Variable wf : list Z.

Lemma sum_range_empty (n : nat) : (1 <= n)%nat -> sum_range wf ped_mean n (n - 1) = 0.
Proof.
  intros Hn. unfold sum_range. now replace (S (n - 1) - n)%nat with 0%nat by lia.
Qed.

Lemma sum_range_first (n b : nat) :
  (n <= b)%nat ->
  sum_range wf ped_mean n b
  = (IZR (nth n wf 0%Z) - ped_mean) + sum_range wf ped_mean (S n) b.
Proof.
  intros Hn. unfold sum_range.
  replace (S b - n)%nat with (S (S b - S n)) by lia. reflexivity.
Qed.

Lemma area_after_sample (s : Loop) (value : Z) :
  fire (close_pulse reset_param threshold value (open_pulse threshold value s)) = true ->
  area (pulse (sample_step reset_param threshold ped_mean s value))
  = area (pulse s) + (IZR value - ped_mean).
Proof.
  unfold sample_step. cbn [pulse]. unfold integrate. intros Hf. rewrite Hf.
  cbn [pulse]. unfold close_pulse in *. unfold open_pulse in *.
  destruct (negb (fire s) && Rge_b (IZR value) threshold);
    cbn [fire pulse] in *.
  - destruct (Rlt_b (IZR value) threshold); cbn [andb fire pulse] in *;
      [discriminate|].
    destruct (Rlt_b (peak _) (IZR value - ped_mean)); reflexivity.
  - destruct (fire s && Rlt_b (IZR value) threshold) eqn:E; cbn [fire pulse] in *;
      [discriminate|].
    destruct (Rlt_b (peak _) (IZR value - ped_mean)); reflexivity.
Qed.

(** The areas of the pulses stored from sample [n] on. *)
Lemma loop_integrates (rest pre : list Z) (n : nat) (open : option nat) (s : Loop) :
  wf = pre ++ rest -> length pre = n -> at_sample n open s ->
  exists new,
    pulse_v (finish reset_param
               (fold_left (sample_step reset_param threshold ped_mean) rest s))
    = pulse_v s ++ new
    /\ match open with
       | Some a => integrated_from reset_param wf ped_mean a n (area (pulse s)) new
       | None => integrated reset_param wf ped_mean (area (pulse s)) new
       end.
Proof.
  revert pre n open s. induction rest as [|value rest IH]; intros pre n open s Hwf Hn Hs.
  - cbn [fold_left]. unfold finish. destruct Hs as (Hc & Ho). destruct open as [a|].
    + destruct Ho as (Hf & Ht & Ha). rewrite Hf. unfold store_pulse. cbn [pulse_v].
      eexists. split; [reflexivity|]. cbn [integrated_from].
      exists (n - 1)%nat. cbn [t_start t_end area]. repeat split.
      * exact Ht.
      * rewrite Hc, minus_INR by lia. reflexivity.
      * lia.
      * rewrite sum_range_empty by lia. lra.
      * constructor.
    + rewrite Ho. exists []. split; [now rewrite app_nil_r | constructor].
  - assert (Hv : nth n wf 0%Z = value).
    { rewrite Hwf, <- Hn. apply nth_middle. }
    assert (Hwf' : wf = (pre ++ [value]) ++ rest) by now rewrite <- app_assoc.
    assert (Hn' : length (pre ++ [value]) = S n)
      by (rewrite length_app; cbn [length]; lia).
    cbn [fold_left].
    destruct (Rge_b (IZR value) threshold) eqn:Hab.
    + destruct (sample_step_above reset_param threshold ped_mean n open s value Hs Hab)
        as (Hs' & Hpv).
      assert (Harea : area (pulse (sample_step reset_param threshold ped_mean s value))
                      = area (pulse s) + (IZR value - ped_mean)).
      { apply area_after_sample. destruct Hs as (_ & Ho).
        assert (Hlt : Rlt_b (IZR value) threshold = false).
        { unfold Rge_b in Hab. now apply negb_true_iff in Hab. }
        unfold close_pulse, open_pulse. destruct open as [a|].
        - destruct Ho as (Hf & _). rewrite Hf. cbn [negb andb]. rewrite Hf, Hlt.
          cbn [andb]. exact Hf.
        - rewrite Ho, Hab. cbn [negb andb fire]. rewrite Hlt. reflexivity. }
      destruct (IH _ _ _ _ Hwf' Hn' Hs') as (new & Hnew & Hint).
      exists new. rewrite Hnew, Hpv. split; [reflexivity|].
      cbn [integrated_from] in Hint. rewrite Harea in Hint.
      destruct new as [|p new]; [now destruct open; [exact I | constructor]|].
      destruct Hint as (b & Ht & He & Hb & Hp & Hrest).
      assert (Hsum : area p = area (pulse s) + sum_range wf ped_mean n b).
      { rewrite Hp, (sum_range_first n b) by lia. rewrite Hv. lra. }
      destruct open as [a|].
      * exists b. repeat split; try assumption. lia.
      * now apply integrated_cons with n b.
    + destruct (sample_step_below reset_param threshold ped_mean n open s value Hs Hab)
        as (Hs' & _).
      destruct (IH _ _ _ _ Hwf' Hn' Hs') as (new & Hnew & Hint).
      destruct Hs as (Hc & Ho).
      assert (Hlt : Rlt_b (IZR value) threshold = true).
      { unfold Rge_b in Hab. now apply negb_false_iff in Hab. }
      destruct open as [a|].
      * destruct Ho as (Hf & Ht & Ha).
        assert (Hstep : sample_step reset_param threshold ped_mean s value
                        = mkLoop false (counter s + 1)
                            (reset_param
                               (mk_pulse_param (peak (pulse s)) (area (pulse s))
                                  (t_start (pulse s)) (t_max (pulse s)) (counter s - 1)))
                            (pulse_v s
                               ++ [mk_pulse_param (peak (pulse s)) (area (pulse s))
                                     (t_start (pulse s)) (t_max (pulse s))
                                     (counter s - 1)])).
        { unfold sample_step, open_pulse. rewrite Hf. cbn [negb andb].
          unfold close_pulse. rewrite Hf, Hlt. cbn [andb].
          unfold integrate, store_pulse. reflexivity. }
        rewrite Hstep in Hnew, Hint |- *. cbn [pulse_v pulse] in Hnew, Hint.
        eexists. rewrite Hnew, <- app_assoc. split; [reflexivity|].
        cbn [app integrated_from]. exists (n - 1)%nat. cbn [t_start t_end area].
        repeat split.
        -- exact Ht.
        -- rewrite Hc, minus_INR by lia. reflexivity.
        -- lia.
        -- rewrite sum_range_empty by lia. lra.
        -- exact Hint.
      * assert (Hstep : sample_step reset_param threshold ped_mean s value
                        = mkLoop false (counter s + 1) (pulse s) (pulse_v s)).
        { unfold sample_step, open_pulse. rewrite Ho, Hab. cbn [negb andb].
          unfold close_pulse. rewrite Ho. cbn [andb].
          unfold integrate. rewrite Ho. cbn [fire counter pulse pulse_v].
          now rewrite Ho. }
        rewrite Hstep in Hnew, Hint |- *. cbn [pulse_v pulse] in Hnew, Hint.
        exists new. split; [exact Hnew | exact Hint].
Qed.

End RecoPulseArea.

(** X16. The area of every pulse that [RecoPulse] appends is the area of
    the record the pulse started from plus the sum, over the samples of its
    span, of the sample minus the pedestal mean; the first pulse starts
    from [_pulse] as [Reset] left it, each other pulse from the record that
    [reset_param] made of the pulse stored before it. *)
Theorem areas_are_integrals_above_pedestal
  (reset_param : pmtana.pulse_param -> pmtana.pulse_param)
  (Reset : pmtana.AlgoThreshold -> pmtana.AlgoThreshold)
  (self : pmtana.AlgoThreshold) (wf : list Z) :
  pmtana.integrated reset_param wf (pmtana._ped_mean (Reset self))
    (pmtana.area (pmtana._pulse (Reset self)))
    (pmtana.appended reset_param Reset self wf).
Proof.
  destruct (loop_integrates reset_param (pmtana.threshold self)
              (pmtana._ped_mean (Reset self)) wf wf [] 0 None
              (pmtana.mkLoop false 0 (pmtana._pulse (Reset self))
                 (pmtana._pulse_v (Reset self))))
    as (new & Hnew & Hint); [reflexivity | reflexivity | split; reflexivity |].
  cbn [pmtana.pulse_v pmtana.pulse] in Hnew, Hint.
  unfold pmtana.appended, pmtana.RecoPulse. cbn [snd pmtana._pulse_v].
  rewrite Hnew, new_pulses_app. exact Hint.
Qed.

Section RecoPulsePeak.

Import pmtana.

Variable reset_param : pulse_param -> pulse_param.
Variables threshold ped_mean : R.
Variable wf : list Z.

Lemma peak_between_start (q cur : pulse_param) (n : nat) :
  peak cur = peak q -> t_max cur = t_max q -> peak_between wf ped_mean q cur n n.
Proof.
  intros Hp Ht. unfold peak_between. rewrite Hp. repeat split.
  - apply Rle_refl.
  - intros i Hi. lia.
  - left. split; [reflexivity | exact Ht].
Qed.

Lemma peak_between_same (q cur cur' : pulse_param) (a hi : nat) :
  peak cur' = peak cur -> t_max cur' = t_max cur ->
  peak_between wf ped_mean q cur a hi -> peak_between wf ped_mean q cur' a hi.
Proof. unfold peak_between. intros -> ->. exact (fun H => H). Qed.

(** One more sample of an open pulse. *)
Lemma peak_between_sample (q : pulse_param) (s : Loop) (value : Z) (a n : nat) :
  fire (close_pulse reset_param threshold value (open_pulse threshold value s)) = true ->
  counter s = INR n -> nth n wf 0%Z = value -> (a <= n)%nat ->
  peak_between wf ped_mean q (pulse s) a n ->
  peak_between wf ped_mean q
    (pulse (sample_step reset_param threshold ped_mean s value)) a (S n).
Proof.
  intros Hf Hc Hv Ha (Hq & Hall & Hwhere).
  assert (E : pulse (sample_step reset_param threshold ped_mean s value)
              = if Rlt_b (peak (pulse s)) (IZR value - ped_mean)
                then mk_pulse_param (IZR value - ped_mean)
                       (area (pulse s) + (IZR value - ped_mean))
                       (t_start (pulse (open_pulse threshold value s)))
                       (INR n) (t_end (pulse s))
                else mk_pulse_param (peak (pulse s))
                       (area (pulse s) + (IZR value - ped_mean))
                       (t_start (pulse (open_pulse threshold value s)))
                       (t_max (pulse s)) (t_end (pulse s))).
  { unfold sample_step. cbn [pulse]. unfold integrate. rewrite Hf. cbn [pulse].
    unfold close_pulse in *. unfold open_pulse in *.
    destruct (negb (fire s) && Rge_b (IZR value) threshold); cbn [fire pulse] in *.
    - destruct (Rlt_b (IZR value) threshold); cbn [andb fire pulse counter] in *;
        [discriminate|].
      cbn [peak area t_start t_max t_end]. rewrite Hc. reflexivity.
    - destruct (fire s && Rlt_b (IZR value) threshold) eqn:E; cbn [fire pulse] in *;
        [discriminate|].
      cbn [peak area t_start t_max t_end counter]. rewrite Hc. reflexivity. }
  rewrite E. clear E.
  destruct (Rlt_b (peak (pulse s)) (IZR value - ped_mean)) eqn:Hnew.
  - apply Rlt_b_iff in Hnew. unfold peak_between. cbn [peak t_max].
    repeat split.
    + lra.
    + intros i Hi. destruct (Nat.eq_dec i n) as [-> | Hne].
      * rewrite Hv. apply Rle_refl.
      * specialize (Hall i). lapply Hall; [lra | lia].
    + right. exists n. rewrite Hv. repeat split; try lia.
      intros j Hj. specialize (Hall j). lapply Hall; [lra | lia].
  - apply Rlt_b_false_iff in Hnew. unfold peak_between. cbn [peak t_max].
    repeat split.
    + exact Hq.
    + intros i Hi. destruct (Nat.eq_dec i n) as [-> | Hne].
      * now rewrite Hv.
      * apply Hall. lia.
    + destruct Hwhere as [Hsame | (i & Hi & Hpi & Hti & Hfirst)]; [now left|].
      right. exists i. repeat split; try assumption; lia.
Qed.

Lemma fire_after_above (n : nat) (open : option nat) (s : Loop) (value : Z) :
  at_sample n open s -> Rge_b (IZR value) threshold = true ->
  fire (close_pulse reset_param threshold value (open_pulse threshold value s)) = true.
Proof.
  intros (_ & Ho) Hab.
  assert (Hlt : Rlt_b (IZR value) threshold = false).
  { unfold Rge_b in Hab. now apply negb_true_iff in Hab. }
  unfold close_pulse, open_pulse. destruct open as [a|].
  - destruct Ho as (Hf & _). rewrite Hf. cbn [negb andb]. rewrite Hf, Hlt.
    cbn [andb]. exact Hf.
  - rewrite Ho, Hab. cbn [negb andb fire]. rewrite Hlt. reflexivity.
Qed.

(** The peaks of the pulses stored from sample [n] on. *)
Lemma loop_peaks (rest pre : list Z) (n : nat) (open : option nat) (s : Loop) :
  wf = pre ++ rest -> length pre = n -> at_sample n open s ->
  exists new,
    pulse_v (finish reset_param
               (fold_left (sample_step reset_param threshold ped_mean) rest s))
    = pulse_v s ++ new
    /\ match open with
       | Some a =>
           forall q, peak_between wf ped_mean q (pulse s) a n ->
                     peaked_from reset_param wf ped_mean q a new
       | None => peaked reset_param wf ped_mean (pulse s) new
       end.
Proof.
  revert pre n open s. induction rest as [|value rest IH]; intros pre n open s Hwf Hn Hs.
  - cbn [fold_left]. unfold finish. destruct Hs as (Hc & Ho). destruct open as [a|].
    + destruct Ho as (Hf & Ht & Ha). rewrite Hf. unfold store_pulse. cbn [pulse_v].
      eexists. split; [reflexivity|]. intros q Hq. cbn [peaked_from].
      exists (n - 1)%nat. cbn [t_start t_end].
      split; [exact Ht|].
      split; [rewrite Hc, minus_INR by lia; reflexivity|].
      split; [|constructor].
      replace (S (n - 1)) with n by lia.
      now apply peak_between_same with (pulse s).
    + rewrite Ho. exists []. split; [now rewrite app_nil_r | constructor].
  - assert (Hv : nth n wf 0%Z = value).
    { rewrite Hwf, <- Hn. apply nth_middle. }
    assert (Hwf' : wf = (pre ++ [value]) ++ rest) by now rewrite <- app_assoc.
    assert (Hn' : length (pre ++ [value]) = S n)
      by (rewrite length_app; cbn [length]; lia).
    cbn [fold_left].
    destruct (Rge_b (IZR value) threshold) eqn:Hab.
    + destruct (sample_step_above reset_param threshold ped_mean n open s value Hs Hab)
        as (Hs' & Hpv).
      assert (Hf := fire_after_above n open s value Hs Hab).
      destruct (IH _ _ _ _ Hwf' Hn' Hs') as (new & Hnew & Hpk).
      exists new. rewrite Hnew, Hpv. split; [reflexivity|].
      destruct Hs as (Hc & Ho). destruct open as [a|].
      * intros q Hq. apply Hpk.
        apply peak_between_sample; try assumption. destruct Ho as (_ & _ & Ha). lia.
      * assert (Hq : peak_between wf ped_mean (pulse s)
                       (pulse (sample_step reset_param threshold ped_mean s value))
                       n (S n)).
        { apply peak_between_sample; try assumption; [lia|].
          now apply peak_between_start. }
        specialize (Hpk (pulse s) Hq). destruct new as [|p new]; [constructor|].
        destruct Hpk as (b & Ht & He & Hp & Hrest).
        now apply peaked_cons with n b.
    + destruct (sample_step_below reset_param threshold ped_mean n open s value Hs Hab)
        as (Hs' & _).
      destruct (IH _ _ _ _ Hwf' Hn' Hs') as (new & Hnew & Hpk).
      destruct Hs as (Hc & Ho).
      assert (Hlt : Rlt_b (IZR value) threshold = true).
      { unfold Rge_b in Hab. now apply negb_false_iff in Hab. }
      destruct open as [a|].
      * destruct Ho as (Hf & Ht & Ha).
        assert (Hstep : sample_step reset_param threshold ped_mean s value
                        = mkLoop false (counter s + 1)
                            (reset_param
                               (mk_pulse_param (peak (pulse s)) (area (pulse s))
                                  (t_start (pulse s)) (t_max (pulse s)) (counter s - 1)))
                            (pulse_v s
                               ++ [mk_pulse_param (peak (pulse s)) (area (pulse s))
                                     (t_start (pulse s)) (t_max (pulse s))
                                     (counter s - 1)])).
        { unfold sample_step, open_pulse. rewrite Hf. cbn [negb andb].
          unfold close_pulse. rewrite Hf, Hlt. cbn [andb].
          unfold integrate, store_pulse. reflexivity. }
        rewrite Hstep in Hnew, Hpk |- *. cbn [pulse_v pulse] in Hnew, Hpk.
        eexists. rewrite Hnew, <- app_assoc. split; [reflexivity|].
        intros q Hq. cbn [app peaked_from]. exists (n - 1)%nat. cbn [t_start t_end].
        split; [exact Ht|].
        split; [rewrite Hc, minus_INR by lia; reflexivity|].
        split; [|exact Hpk].
        replace (S (n - 1)) with n by lia.
        now apply peak_between_same with (pulse s).
      * assert (Hstep : sample_step reset_param threshold ped_mean s value
                        = mkLoop false (counter s + 1) (pulse s) (pulse_v s)).
        { unfold sample_step, open_pulse. rewrite Ho, Hab. cbn [negb andb].
          unfold close_pulse. rewrite Ho. cbn [andb].
          unfold integrate. rewrite Ho. cbn [fire counter pulse pulse_v].
          now rewrite Ho. }
        rewrite Hstep in Hnew, Hpk |- *. cbn [pulse_v pulse] in Hnew, Hpk.
        exists new. split; [exact Hnew | exact Hpk].
Qed.

End RecoPulsePeak.

(** X17. For every pulse that [RecoPulse] appends, the peak is at least
    the peak of the record the pulse started from and at least every sample
    of its span minus the pedestal mean; either it is still the peak of
    that record, with its [t_max], or it is the first sample of the span
    that reaches this value, and [t_max] is the index of that sample. *)
Theorem peaks_are_maxima_above_pedestal
  (reset_param : pmtana.pulse_param -> pmtana.pulse_param)
  (Reset : pmtana.AlgoThreshold -> pmtana.AlgoThreshold)
  (self : pmtana.AlgoThreshold) (wf : list Z) :
  pmtana.peaked reset_param wf (pmtana._ped_mean (Reset self))
    (pmtana._pulse (Reset self))
    (pmtana.appended reset_param Reset self wf).
Proof.
  destruct (loop_peaks reset_param (pmtana.threshold self)
              (pmtana._ped_mean (Reset self)) wf wf [] 0 None
              (pmtana.mkLoop false 0 (pmtana._pulse (Reset self))
                 (pmtana._pulse_v (Reset self))))
    as (new & Hnew & Hpk); [reflexivity | reflexivity | split; reflexivity |].
  cbn [pmtana.pulse_v pmtana.pulse] in Hnew, Hpk.
  unfold pmtana.appended, pmtana.RecoPulse. cbn [snd pmtana._pulse_v].
  rewrite Hnew, new_pulses_app. exact Hpk.
Qed.

Section RecoPulseSample.

Import pmtana.

(** The threshold of [sample_algo] is 15: [sample_waveform] has the runs
    of samples 1 to 2 and 4 to 4, and the pulse that [clear] left out is
    not among the pulses afterwards. *)
Example sample_waveform_pulses :
  threshold sample_algo = 5 * 1 + 10
  /\ map span
       (_pulse_v
          (snd (RecoPulse (fun _ => blank) clear
                  sample_algo sample_waveform)))
     = [(INR 1, INR 2); (INR 4, INR 4)].
Proof.
  assert (Hth : threshold sample_algo = 5 * 1 + 10).
  { unfold threshold. cbn [sample_algo _adc_thres _nsigma
      _ped_rms _ped_mean]. unfold Rgt_b. decide_Rlt. reflexivity. }
  split; [exact Hth|].
  destruct (appended_runs (fun _ => blank) clear sample_algo
              sample_waveform) as (Hnew & Hspans).
  rewrite Hnew. cbn [clear _pulse_v app].
  revert Hspans. rewrite Hth. unfold above, sample_waveform, Rge_b.
  cbn [map]. decide_Rlt. cbn [negb runs_from Nat.sub].
  generalize (appended (fun _ => blank) clear sample_algo
                [10%Z; 20%Z; 30%Z; 5%Z; 40%Z]).
  intros new H.
  inversion H as [|p1 ab1 l1 r1 H1 H']; subst.
  inversion H' as [|p2 ab2 l2 r2 H2 H'']; subst. inversion H''; subst.
  cbn [map]. rewrite H1, H2. reflexivity.
Qed.


End RecoPulseSample.
